(** * vietnam-qr-generator: a shallow embedding of the QR Code encoder

    The TypeScript sources ([QrCodeUtil], [QrEcc], [QrMode], [QrSegment],
    [QrCode] and the facade [MyQrCode]) are rendered as Rocq functions.

    - JavaScript numbers that the program uses as integers are [Z]; the
      32-bit conversions performed by the bit operators are written out
      in module [JS].
    - Arrays are lists.  Reading or writing an array outside its bounds
      (where JavaScript yields [undefined] or grows the array) is the
      outcome [Err OutOfBounds]: the embedding does not follow the
      program beyond such a point, and the theorems show that the
      constructor never reaches one.
    - A thrown exception is the outcome [Err e]; functions that can throw
      live in the error monad [res].
    - In-place mutation of [this] and of local arrays is explicit state
      passing. *)

From Stdlib Require Import ZArith Lia Bool String.
From Stdlib Require FMapPositive.
From stdpp Require Import base tactics option list list_numbers.

Local Open Scope Z_scope.

(** ** Outcomes *)

Inductive exn : Type :=
| RangeError (msg : string)   (* throw new RangeError(msg) *)
| URIError                    (* thrown by the host's encodeURI *)
| AssertionError              (* QrCodeUtil.assert: new Error("Assertion error") *)
| UnreachableError            (* new Error("Unreachable") *)
| OutOfBounds                 (* an array access outside the array *)
| OutOfFuel.                  (* a loop of the embedding ran out of its step budget *)

Inductive res (A : Type) : Type :=
| Ok (a : A)
| Err (e : exn).
Arguments Ok {A} a.
Arguments Err {A} e.

#[global] Instance res_ret : MRet res := fun A a => Ok a.
#[global] Instance res_bind : MBind res :=
  fun A B f m => match m with Ok a => f a | Err e => Err e end.
#[global] Instance res_fmap : FMap res :=
  fun A B f m => match m with Ok a => Ok (f a) | Err e => Err e end.

(** [for (const a of l) body(a)] over a state [s]. *)
Fixpoint forM {A S : Type} (l : list A) (body : A -> S -> res S) (s : S) : res S :=
  match l with
  | [] => Ok s
  | a :: l' => s' ← body a s; forM l' body s'
  end.

(** [l[i]] for a read that the program expects to be in bounds. *)
Definition lookupZ {A : Type} (l : list A) (i : Z) : res A :=
  if i <? 0 then Err OutOfBounds
  else match l !! Z.to_nat i with
       | Some a => Ok a
       | None => Err OutOfBounds
       end.

(** [l[i] = a] for a write that the program expects to be in bounds. *)
Definition updateZ {A : Type} (l : list A) (i : Z) (a : A) : res (list A) :=
  if (0 <=? i) && (i <? Z.of_nat (length l)) then Ok (<[Z.to_nat i := a]> l)
  else Err OutOfBounds.

(** ** JavaScript integer operators *)

Module JS.

(** ToUint32 and ToInt32 of an integer: 4294967296 is 2^32, 2147483648 is 2^31. *)
Definition toUint32 (z : Z) : Z := z mod 4294967296.
Definition toInt32 (z : Z) : Z := (z + 2147483648) mod 4294967296 - 2147483648.

(** [x >>> n] *)
Definition ushr (x n : Z) : Z := Z.shiftr (toUint32 x) (n mod 32).
(** [x << n] *)
Definition shl (x n : Z) : Z := toInt32 (Z.shiftl (toInt32 x) (n mod 32)).
(** [x ^ y], [x | y], [x & y] *)
Definition xor (x y : Z) : Z := Z.lxor (toInt32 x) (toInt32 y).
Definition or (x y : Z) : Z := Z.lor (toInt32 x) (toInt32 y).
Definition and (x y : Z) : Z := Z.land (toInt32 x) (toInt32 y).
(** [x % y] on integers: the remainder takes the sign of [x]. *)
Definition rem (x y : Z) : Z := Z.rem x y.
(** [Math.floor(x / y)] and [Math.ceil(x / y)] for integers [x] and [y > 0]. *)
Definition floorDiv (x y : Z) : Z := x / y.
Definition ceilDiv (x y : Z) : Z := - ((- x) / y).

(** [Array.prototype.slice(start, end)]. *)
Definition slice {A : Type} (l : list A) (start stop : Z) : list A :=
  let len := Z.of_nat (length l) in
  let from := if start <? 0 then Z.max (len + start) 0 else Z.min start len in
  let to := if stop <? 0 then Z.max (len + stop) 0 else Z.min stop len in
  take (Z.to_nat (to - from)) (drop (Z.to_nat from) l).

(** A string is its sequence of UTF-16 code units. *)
Definition str : Type := list Z.

(** The code units of an ASCII literal. *)
Fixpoint lit (s : string) : str :=
  match s with
  | EmptyString => []
  | String c s' => Z.of_nat (Ascii.nat_of_ascii c) :: lit s'
  end.

(** [s.indexOf(ch)] for a one-character [ch]: the first index, or -1. *)
Fixpoint indexOf (s : str) (ch : Z) : Z :=
  match s with
  | [] => -1
  | c :: s' => if c =? ch then 0 else
               let i := indexOf s' ch in if i <? 0 then -1 else i + 1
  end.

(** [parseInt(s, 10)] on a string of decimal digits. *)
Definition parseInt10 (s : str) : Z :=
  fold_left (fun acc c => acc * 10 + (c - 48)) s 0.

(** The value of a hexadecimal digit, as [parseInt(_, 16)] reads it. *)
Definition hexDigit (c : Z) : option Z :=
  if (48 <=? c) && (c <=? 57) then Some (c - 48)
  else if (65 <=? c) && (c <=? 70) then Some (c - 55)
  else if (97 <=? c) && (c <=? 102) then Some (c - 87)
  else None.

(** The host function [encodeURI] (ECMAScript, 19.2.6.4 with the abstract
    operations Encode and CodePointAt): a code unit of the unescaped set
    (uriReserved, uriUnescaped and the number sign) is kept; any other code point is
    replaced by the escapes [%HH] of the octets of its UTF-8 encoding; an
    unpaired surrogate throws a URIError. *)
Definition uriUnescaped (c : Z) : bool :=
  ((65 <=? c) && (c <=? 90)) || ((97 <=? c) && (c <=? 122)) || ((48 <=? c) && (c <=? 57))
  || bool_decide (c ∈ lit ";/?:@&=+$,-_.!~*'()#").

Definition utf8Octets (cp : Z) : list Z :=
  if cp <? 128 then [cp]
  else if cp <? 2048 then [Z.lor 192 (Z.shiftr cp 6); Z.lor 128 (Z.land cp 63)]
  else if cp <? 65536 then
    [Z.lor 224 (Z.shiftr cp 12); Z.lor 128 (Z.land (Z.shiftr cp 6) 63); Z.lor 128 (Z.land cp 63)]
  else
    [Z.lor 240 (Z.shiftr cp 18); Z.lor 128 (Z.land (Z.shiftr cp 12) 63);
     Z.lor 128 (Z.land (Z.shiftr cp 6) 63); Z.lor 128 (Z.land cp 63)].

Definition hexChar (d : Z) : Z := if d <? 10 then 48 + d else 55 + d.
Definition escapeOctet (o : Z) : str := [37; hexChar (o / 16); hexChar (o mod 16)].
Definition escapeOctets (os : list Z) : str := concat (map escapeOctet os).

Definition isSurrogate (c : Z) : bool := (55296 <=? c) && (c <=? 57343).
Definition isLeadSurrogate (c : Z) : bool := (55296 <=? c) && (c <=? 56319).
Definition isTrailSurrogate (c : Z) : bool := (56320 <=? c) && (c <=? 57343).
Definition pairCodePoint (hi lo : Z) : Z := (hi - 55296) * 1024 + (lo - 56320) + 65536.

Fixpoint encodeURI (s : str) : res str :=
  match s with
  | [] => Ok []
  | c :: rest =>
      if uriUnescaped c then r ← encodeURI rest; Ok (c :: r)
      else if negb (isSurrogate c) then r ← encodeURI rest; Ok (escapeOctets (utf8Octets c) ++ r)
      else if isLeadSurrogate c then
        match rest with
        | d :: rest' =>
            if isTrailSurrogate d then
              r ← encodeURI rest'; Ok (escapeOctets (utf8Octets (pairCodePoint c d)) ++ r)
            else Err URIError
        | [] => Err URIError
        end
      else Err URIError
  end.

End JS.

(** ** QrCodeUtil *)

Module QrCodeUtil.

(** Appends the [len] low-order bits of [val] to the bit buffer [bb], most
    significant first. *)
Definition appendBits (val len : Z) (bb : list Z) : res (list Z) :=
  if (len <? 0) || (len >? 31) || negb (JS.ushr val len =? 0)
  then Err (RangeError "Value out of range")
  else Ok (bb ++ map (fun i => JS.and (JS.ushr val i) 1) (reverse (seqZ 0 len))).

Definition getBit (x i : Z) : bool := negb (JS.and (JS.ushr x i) 1 =? 0).

Definition assert (cond : bool) : res unit :=
  if cond then Ok tt else Err AssertionError.

End QrCodeUtil.

(** ** QrEcc *)

Module QrEcc.

Inductive t : Type := LOW | MEDIUM | QUARTILE | HIGH.

Definition ordinal (e : t) : Z :=
  match e with LOW => 0 | MEDIUM => 1 | QUARTILE => 2 | HIGH => 3 end.

Definition formatBits (e : t) : Z :=
  match e with LOW => 1 | MEDIUM => 0 | QUARTILE => 3 | HIGH => 2 end.

End QrEcc.

(** ** QrMode *)

Module QrMode.

Inductive t : Type := NUMERIC | ALPHANUMERIC | BYTE | KANJI | ECI.

Definition modeBits (m : t) : Z :=
  match m with NUMERIC => 1 | ALPHANUMERIC => 2 | BYTE => 4 | KANJI => 8 | ECI => 7 end.

Definition numBitsCharCount (m : t) : list Z :=
  match m with
  | NUMERIC => [10; 12; 14]
  | ALPHANUMERIC => [9; 11; 13]
  | BYTE => [8; 16; 16]
  | KANJI => [8; 10; 12]
  | ECI => [0; 0; 0]
  end.

Definition numCharCountBits (m : t) (ver : Z) : res Z :=
  lookupZ (numBitsCharCount m) (JS.floorDiv (ver + 7) 17).

End QrMode.

(** ** QrSegment *)

Module QrSegment.

Record t : Type := Build {
  mode : QrMode.t;
  numChars : Z;
  bitData : list Z;
}.

(** The constructor: the bit buffer is copied, a negative count is refused. *)
Definition new (mode : QrMode.t) (numChars : Z) (bitData : list Z) : res t :=
  if numChars <? 0 then Err (RangeError "Invalid argument")
  else Ok (Build mode numChars bitData).

Definition getData (seg : t) : list Z := bitData seg.

(** [/^[0-9]*$/] *)
Definition isNumeric (text : JS.str) : bool :=
  forallb (fun c => (48 <=? c) && (c <=? 57)) text.

(** [/^[A-Z0-9 $%*+.\/:-]*$/] *)
Definition isAlphanumeric (text : JS.str) : bool :=
  forallb (fun c => ((65 <=? c) && (c <=? 90)) || ((48 <=? c) && (c <=? 57))
                    || bool_decide (c ∈ JS.lit " $%*+./:-")) text.

Definition ALPHANUMERIC_CHARSET : JS.str :=
  JS.lit "0123456789ABCDEFGHIJKLMNOPQRSTUVWXYZ $%*+-./:".

Definition makeBytes (data : list Z) : res t :=
  bb ← forM data (fun b bb => QrCodeUtil.appendBits b 8 bb) [];
  new QrMode.BYTE (Z.of_nat (length data)) bb.

(** The loop of [makeNumeric]: up to three digits are consumed per iteration
    and written in [n * 3 + 1] bits. *)
Fixpoint numericGroups (digits : JS.str) (bb : list Z) : res (list Z) :=
  match digits with
  | [] => Ok bb
  | [a] => QrCodeUtil.appendBits (JS.parseInt10 [a]) (1 * 3 + 1) bb
  | [a; b] => QrCodeUtil.appendBits (JS.parseInt10 [a; b]) (2 * 3 + 1) bb
  | a :: b :: c :: rest =>
      bb' ← QrCodeUtil.appendBits (JS.parseInt10 [a; b; c]) (3 * 3 + 1) bb;
      numericGroups rest bb'
  end.

Definition makeNumeric (digits : JS.str) : res t :=
  if negb (isNumeric digits)
  then Err (RangeError "String contains non-numeric characters")
  else
    bb ← numericGroups digits [];
    new QrMode.NUMERIC (Z.of_nat (length digits)) bb.

(** The loop of [makeAlphanumeric] over groups of two characters, and the
    one character that may remain. *)
Fixpoint alphanumericGroups (text : JS.str) (bb : list Z) : res (list Z) :=
  match text with
  | [] => Ok bb
  | [a] => QrCodeUtil.appendBits (JS.indexOf ALPHANUMERIC_CHARSET a) 6 bb
  | a :: b :: rest =>
      let temp := JS.indexOf ALPHANUMERIC_CHARSET a * 45 in
      let temp := temp + JS.indexOf ALPHANUMERIC_CHARSET b in
      bb' ← QrCodeUtil.appendBits temp 11 bb;
      alphanumericGroups rest bb'
  end.

Definition makeAlphanumeric (text : JS.str) : res t :=
  if negb (isAlphanumeric text)
  then Err (RangeError "String contains unencodable characters in alphanumeric mode")
  else
    bb ← alphanumericGroups text [];
    new QrMode.ALPHANUMERIC (Z.of_nat (length text)) bb.

(** The loop of [toUtf8ByteArray] over the escaped string: a character other
    than the percent sign is pushed as its code, an escape [%HH] as the value
    of its two hexadecimal digits. *)
Fixpoint unescapeBytes (s : JS.str) : res (list Z) :=
  match s with
  | [] => Ok []
  | c :: rest =>
      if negb (c =? 37) then r ← unescapeBytes rest; Ok (c :: r)
      else match rest with
           | h :: l :: rest' =>
               match JS.hexDigit h, JS.hexDigit l with
               | Some a, Some b => r ← unescapeBytes rest'; Ok (a * 16 + b :: r)
               | _, _ => Err OutOfBounds
               end
           | _ => Err OutOfBounds
           end
  end.

Definition toUtf8ByteArray (s : JS.str) : res (list Z) :=
  s' ← JS.encodeURI s; unescapeBytes s'.

Definition makeSegments (text : JS.str) : res (list t) :=
  if bool_decide (text = []) then Ok []
  else if isNumeric text then seg ← makeNumeric text; Ok [seg]
  else if isAlphanumeric text then seg ← makeAlphanumeric text; Ok [seg]
  else bytes ← toUtf8ByteArray text; seg ← makeBytes bytes; Ok [seg].

Definition makeEci (assignVal : Z) : res t :=
  bb ← (if assignVal <? 0 then Err (RangeError "ECI assignment value out of range")
        else if assignVal <? JS.shl 1 7 then QrCodeUtil.appendBits assignVal 8 []
        else if assignVal <? JS.shl 1 14 then
          bb ← QrCodeUtil.appendBits 2 2 []; QrCodeUtil.appendBits assignVal 14 bb
        else if assignVal <? 1000000 then
          bb ← QrCodeUtil.appendBits 6 3 []; QrCodeUtil.appendBits assignVal 21 bb
        else Err (RangeError "ECI assignment value out of range"));
  new QrMode.ECI 0 bb.

(** A bit count, or [Infinity]. *)
Inductive bits : Type := Finite (n : Z) | Infinity.

Definition bits_leb (used : bits) (capacity : Z) : bool :=
  match used with Finite n => n <=? capacity | Infinity => false end.

(** The loop of [getTotalBits]; [acc] is the running [result] variable. *)
Fixpoint totalBitsFrom (segs : list t) (version : Z) (acc : Z) : res bits :=
  match segs with
  | [] => Ok (Finite acc)
  | seg :: segs' =>
      ccbits ← QrMode.numCharCountBits (mode seg) version;
      if numChars seg >=? JS.shl 1 ccbits then Ok Infinity
      else totalBitsFrom segs' version (acc + (4 + ccbits + Z.of_nat (length (bitData seg))))
  end.

Definition getTotalBits (segs : list t) (version : Z) : res bits :=
  totalBitsFrom segs version 0.

End QrSegment.

(** [while (cond) body] with a step budget: the budget is an artefact of the
    embedding, and exhausting it is the outcome [Err OutOfFuel]. *)
Fixpoint while {St : Type} (fuel : nat) (cond : St -> bool) (body : St -> res St) (s : St)
  : res St :=
  if cond s then
    match fuel with
    | O => Err OutOfFuel
    | S fuel' => s' ← body s; while fuel' cond body s'
    end
  else Ok s.

(** [l.forEach((a, i) => body(a, i))] *)
Definition forEachM {A S : Type} (l : list A) (body : A -> Z -> S -> res S) (s : S)
  : res S :=
  forM (zip l (seqZ 0 (Z.of_nat (length l)))) (fun ai => body ai.1 ai.2) s.

(** ** QrCode *)

Module QrCode.

Definition MIN_VERSION : Z := 1.
Definition MAX_VERSION : Z := 40.

Definition PENALTY_N1 : Z := 3.
Definition PENALTY_N2 : Z := 3.
Definition PENALTY_N3 : Z := 40.
Definition PENALTY_N4 : Z := 10.

Definition ECC_CODEWORDS_PER_BLOCK : list (list Z) := [
  [-1; 7; 10; 15; 20; 26; 18; 20; 24; 30; 18; 20; 24; 26; 30; 22; 24; 28; 30; 28; 28; 28; 28; 30; 30; 26; 28; 30; 30; 30; 30; 30; 30; 30; 30; 30; 30; 30; 30; 30; 30];
  [-1; 10; 16; 26; 18; 24; 16; 18; 22; 22; 26; 30; 22; 22; 24; 24; 28; 28; 26; 26; 26; 26; 28; 28; 28; 28; 28; 28; 28; 28; 28; 28; 28; 28; 28; 28; 28; 28; 28; 28; 28];
  [-1; 13; 22; 18; 26; 18; 24; 18; 22; 20; 24; 28; 26; 24; 20; 30; 24; 28; 28; 26; 30; 28; 30; 30; 30; 30; 28; 30; 30; 30; 30; 30; 30; 30; 30; 30; 30; 30; 30; 30; 30];
  [-1; 17; 28; 22; 16; 22; 28; 26; 26; 24; 28; 24; 28; 22; 24; 24; 30; 28; 28; 26; 28; 30; 24; 30; 30; 30; 30; 30; 30; 30; 30; 30; 30; 30; 30; 30; 30; 30; 30; 30; 30]
].

Definition NUM_ERROR_CORRECTION_BLOCKS : list (list Z) := [
  [-1; 1; 1; 1; 1; 1; 2; 2; 2; 2; 4; 4; 4; 4; 4; 6; 6; 6; 6; 7; 8; 8; 9; 9; 10; 12; 12; 12; 13; 14; 15; 16; 17; 18; 19; 19; 20; 21; 22; 24; 25];
  [-1; 1; 1; 1; 2; 2; 4; 4; 4; 5; 5; 5; 8; 9; 9; 10; 10; 11; 13; 14; 16; 17; 17; 18; 20; 21; 23; 25; 26; 28; 29; 31; 33; 35; 37; 38; 40; 43; 45; 47; 49];
  [-1; 1; 1; 2; 2; 4; 4; 6; 6; 8; 8; 8; 10; 12; 16; 12; 17; 16; 18; 21; 20; 23; 23; 25; 27; 29; 34; 34; 35; 38; 40; 43; 45; 48; 51; 53; 56; 59; 62; 65; 68];
  [-1; 1; 1; 2; 4; 4; 4; 5; 6; 8; 8; 11; 11; 16; 16; 18; 16; 19; 21; 25; 25; 25; 34; 30; 32; 35; 37; 40; 42; 45; 48; 51; 54; 57; 60; 63; 66; 70; 74; 77; 81]
].

(** [table[ecl.ordinal][ver]] *)
Definition tableAt (table : list (list Z)) (ecl : QrEcc.t) (ver : Z) : res Z :=
  row ← lookupZ table (QrEcc.ordinal ecl); lookupZ row ver.

Definition getNumRawDataModules (ver : Z) : res Z :=
  if (ver <? MIN_VERSION) || (ver >? MAX_VERSION)
  then Err (RangeError "Version number out of range")
  else
    let result := (16 * ver + 128) * ver + 64 in
    let result :=
      if ver >=? 2 then
        let numAlign := JS.floorDiv ver 7 + 2 in
        let result := result - ((25 * numAlign - 10) * numAlign - 55) in
        if ver >=? 7 then result - 36 else result
      else result in
    _ ← QrCodeUtil.assert ((208 <=? result) && (result <=? 29648));
    Ok result.

Definition getNumDataCodewords (ver : Z) (ecl : QrEcc.t) : res Z :=
  raw ← getNumRawDataModules ver;
  e ← tableAt ECC_CODEWORDS_PER_BLOCK ecl ver;
  b ← tableAt NUM_ERROR_CORRECTION_BLOCKS ecl ver;
  Ok (JS.floorDiv raw 8 - e * b).

(** *** Reed-Solomon over GF(2^8/0x11D) *)

Definition reedSolomonMultiply (x y : Z) : res Z :=
  if negb (JS.ushr x 8 =? 0) || negb (JS.ushr y 8 =? 0)
  then Err (RangeError "number out of range")
  else
    let z := fold_left (fun z i =>
                          let z := JS.xor (JS.shl z 1) (JS.ushr z 7 * 285) in
                          JS.xor z (JS.and (JS.ushr y i) 1 * x))
                       (reverse (seqZ 0 8)) 0 in
    _ ← QrCodeUtil.assert (JS.ushr z 8 =? 0);
    Ok z.

Definition reedSolomonComputeDivisor (degree : Z) : res (list Z) :=
  if (degree <? 1) || (degree >? 255) then Err (RangeError "Degree out of range")
  else
    let result := replicate (Z.to_nat (degree - 1)) 0 ++ [1] in
    rr ← forM (seqZ 0 degree)
         (fun _ '(result, root) =>
            result ← forM (seqZ 0 (Z.of_nat (length result)))
                     (fun j result =>
                        rj ← lookupZ result j;
                        v ← reedSolomonMultiply rj root;
                        v ← (if j + 1 <? Z.of_nat (length result)
                             then r1 ← lookupZ result (j + 1); Ok (JS.xor v r1)
                             else Ok v);
                        updateZ result j v)
                     result;
            root ← reedSolomonMultiply root 2;
            Ok (result, root))
         (result, 1);
    Ok rr.1.

Definition reedSolomonComputeRemainder (data divisor : list Z) : res (list Z) :=
  forM data
    (fun b result =>
       let factor := JS.xor b (default 0 (head result)) in
       let result := tail result ++ [0] in
       forEachM divisor
         (fun coef i result =>
            ri ← lookupZ result i;
            m ← reedSolomonMultiply coef factor;
            updateZ result i (JS.xor ri m))
         result)
    (map (fun _ => 0) divisor).

(** *** The symbol under construction *)

Abbreviation grid := (list (list bool)).

Record t : Type := Build {
  version : Z;
  errorCorrectionLevel : QrEcc.t;
  size : Z;
  mask : Z;
  modules : grid;
  isFunction : grid;
}.

Definition withModules (qr : t) (m : grid) : t :=
  Build (version qr) (errorCorrectionLevel qr) (size qr) (mask qr) m (isFunction qr).
Definition withIsFunction (qr : t) (f : grid) : t :=
  Build (version qr) (errorCorrectionLevel qr) (size qr) (mask qr) (modules qr) f.
Definition withMask (qr : t) (m : Z) : t :=
  Build (version qr) (errorCorrectionLevel qr) (size qr) m (modules qr) (isFunction qr).

(** [g[y][x]] and [g[y][x] = b] *)
Definition gridGet (g : grid) (x y : Z) : res bool :=
  row ← lookupZ g y; lookupZ row x.
Definition gridSet (g : grid) (x y : Z) (b : bool) : res grid :=
  row ← lookupZ g y; row' ← updateZ row x b; updateZ g y row'.

Definition getModule (qr : t) (x y : Z) : res bool :=
  if (0 <=? x) && (x <? size qr) && (0 <=? y) && (y <? size qr)
  then gridGet (modules qr) x y
  else Ok false.

Definition setFunctionModule (x y : Z) (isDark : bool) (qr : t) : res t :=
  m ← gridSet (modules qr) x y isDark;
  f ← gridSet (isFunction qr) x y true;
  Ok (withIsFunction (withModules qr m) f).

(** *** Function patterns *)

(** The 15 format bits of a level and a mask (the first block of
    [drawFormatBits]): the data, its BCH remainder, and the final XOR. *)
Definition formatBitsWord (ecl : QrEcc.t) (mask : Z) : Z :=
  let data := JS.or (JS.shl (QrEcc.formatBits ecl) 3) mask in
  let rem := fold_left (fun rem _ => JS.xor (JS.shl rem 1) (JS.ushr rem 9 * 1335))
                       (seqZ 0 10) data in
  JS.xor (JS.or (JS.shl data 10) rem) 21522.

Definition drawFormatBits (mask : Z) (qr : t) : res t :=
  let bits := formatBitsWord (errorCorrectionLevel qr) mask in
  _ ← QrCodeUtil.assert (JS.ushr bits 15 =? 0);
  (* first copy *)
  qr ← forM (seqZ 0 6) (fun i => setFunctionModule 8 i (QrCodeUtil.getBit bits i)) qr;
  qr ← setFunctionModule 8 7 (QrCodeUtil.getBit bits 6) qr;
  qr ← setFunctionModule 8 8 (QrCodeUtil.getBit bits 7) qr;
  qr ← setFunctionModule 7 8 (QrCodeUtil.getBit bits 8) qr;
  qr ← forM (seqZ 9 6) (fun i => setFunctionModule (14 - i) 8 (QrCodeUtil.getBit bits i)) qr;
  (* second copy *)
  qr ← forM (seqZ 0 8)
        (fun i qr => setFunctionModule (size qr - 1 - i) 8 (QrCodeUtil.getBit bits i) qr) qr;
  qr ← forM (seqZ 8 7)
        (fun i qr => setFunctionModule 8 (size qr - 15 + i) (QrCodeUtil.getBit bits i) qr) qr;
  setFunctionModule 8 (size qr - 8) true qr.

(** The 18 version bits of a version (the first block of [drawVersion]). *)
Definition versionBitsWord (version : Z) : Z :=
  let rem := fold_left (fun rem _ => JS.xor (JS.shl rem 1) (JS.ushr rem 11 * 7973))
                       (seqZ 0 12) version in
  JS.or (JS.shl version 12) rem.

Definition drawVersion (qr : t) : res t :=
  if version qr <? 7 then Ok qr
  else
    let bits := versionBitsWord (version qr) in
    _ ← QrCodeUtil.assert (JS.ushr bits 18 =? 0);
    forM (seqZ 0 18)
      (fun i qr =>
         let color := QrCodeUtil.getBit bits i in
         let a := size qr - 11 + JS.rem i 3 in
         let b := JS.floorDiv i 3 in
         qr ← setFunctionModule a b color qr;
         setFunctionModule b a color qr)
      qr.

Definition drawFinderPattern (x y : Z) (qr : t) : res t :=
  forM (seqZ (-4) 9)
    (fun dy =>
       forM (seqZ (-4) 9)
         (fun dx qr =>
            let dist := Z.max (Z.abs dx) (Z.abs dy) in
            let xx := x + dx in
            let yy := y + dy in
            if (0 <=? xx) && (xx <? size qr) && (0 <=? yy) && (yy <? size qr)
            then setFunctionModule xx yy (negb (dist =? 2) && negb (dist =? 4)) qr
            else Ok qr))
    qr.

Definition drawAlignmentPattern (x y : Z) (qr : t) : res t :=
  forM (seqZ (-2) 5)
    (fun dy =>
       forM (seqZ (-2) 5)
         (fun dx =>
            setFunctionModule (x + dx) (y + dy)
                              (negb (Z.max (Z.abs dx) (Z.abs dy) =? 1))))
    qr.

Definition getAlignmentPatternPositions (qr : t) : res (list Z) :=
  if version qr =? 1 then Ok []
  else
    let numAlign := JS.floorDiv (version qr) 7 + 2 in
    let step := if version qr =? 32 then 26
                else JS.ceilDiv (version qr * 4 + 4) (numAlign * 2 - 2) * 2 in
    pr ← while (Z.to_nat numAlign)
           (fun '(pos, result) => Z.of_nat (length result) <? numAlign)
           (fun '(pos, result) => Ok (pos - step, take 1 result ++ pos :: drop 1 result))
           (size qr - 7, [6]);
    Ok pr.2.

Definition drawFunctionPatterns (qr : t) : res t :=
  (* timing patterns *)
  qr ← forM (seqZ 0 (size qr))
        (fun i qr =>
           qr ← setFunctionModule 6 i (JS.rem i 2 =? 0) qr;
           setFunctionModule i 6 (JS.rem i 2 =? 0) qr)
        qr;
  (* finder patterns *)
  qr ← drawFinderPattern 3 3 qr;
  qr ← drawFinderPattern (size qr - 4) 3 qr;
  qr ← drawFinderPattern 3 (size qr - 4) qr;
  (* alignment patterns *)
  alignPatPos ← getAlignmentPatternPositions qr;
  let numAlign := Z.of_nat (length alignPatPos) in
  qr ← forM (seqZ 0 numAlign)
        (fun i =>
           forM (seqZ 0 numAlign)
             (fun j qr =>
                if negb (((i =? 0) && (j =? 0)) || ((i =? 0) && (j =? numAlign - 1))
                         || ((i =? numAlign - 1) && (j =? 0)))
                then
                  px ← lookupZ alignPatPos i;
                  py ← lookupZ alignPatPos j;
                  drawAlignmentPattern px py qr
                else Ok qr))
        qr;
  (* configuration data *)
  qr ← drawFormatBits 0 qr;
  drawVersion qr.

(** *** Codewords and masking *)

Definition addEccAndInterleave (qr : t) (data : list Z) : res (list Z) :=
  let ver := version qr in
  let ecl := errorCorrectionLevel qr in
  n ← getNumDataCodewords ver ecl;
  if negb (Z.of_nat (length data) =? n) then Err (RangeError "Invalid argument")
  else
    numBlocks ← tableAt NUM_ERROR_CORRECTION_BLOCKS ecl ver;
    blockEccLen ← tableAt ECC_CODEWORDS_PER_BLOCK ecl ver;
    raw ← getNumRawDataModules ver;
    let rawCodewords := JS.floorDiv raw 8 in
    let numShortBlocks := numBlocks - JS.rem rawCodewords numBlocks in
    let shortBlockLen := JS.floorDiv rawCodewords numBlocks in
    (* split the data into blocks and append the ECC to each block *)
    rsDiv ← reedSolomonComputeDivisor blockEccLen;
    kb ← forM (seqZ 0 numBlocks)
         (fun i '(k, blocks) =>
            let dat := JS.slice data k (k + shortBlockLen - blockEccLen
                                        + (if i <? numShortBlocks then 0 else 1)) in
            let k := k + Z.of_nat (length dat) in
            ecc ← reedSolomonComputeRemainder dat rsDiv;
            let dat := if i <? numShortBlocks then dat ++ [0] else dat in
            Ok (k, blocks ++ [dat ++ ecc]))
         (0, []);
    let blocks : list (list Z) := kb.2 in
    (* interleave the bytes of the blocks *)
    block0 ← lookupZ blocks 0;
    result ← forM (seqZ 0 (Z.of_nat (length block0)))
             (fun i =>
                forEachM blocks
                  (fun block j result =>
                     if negb (i =? shortBlockLen - blockEccLen) || (j >=? numShortBlocks)
                     then b ← lookupZ block i; Ok (result ++ [b])
                     else Ok result))
             [];
    _ ← QrCodeUtil.assert (Z.of_nat (length result) =? rawCodewords);
    Ok result.

Definition drawCodewords (data : list Z) (qr : t) : res t :=
  raw ← getNumRawDataModules (version qr);
  if negb (Z.of_nat (length data) =? JS.floorDiv raw 8)
  then Err (RangeError "Invalid argument")
  else
    rs ← while (Z.to_nat (size qr))
           (fun s => s.1 >=? 1)
           (fun s =>
              let right := if s.1 =? 6 then 5 else s.1 in
              mi ← forM (seqZ 0 (size qr))
                    (fun vert =>
                       forM (seqZ 0 2)
                         (fun j '(m, i) =>
                            let x := right - j in
                            let upward := JS.and (right + 1) 2 =? 0 in
                            let y := if upward then size qr - 1 - vert else vert in
                            f ← gridGet (isFunction qr) x y;
                            if negb f && (i <? Z.of_nat (length data) * 8) then
                              d ← lookupZ data (JS.ushr i 3);
                              m ← gridSet m x y (QrCodeUtil.getBit d (7 - JS.and i 7));
                              Ok (m, i + 1)
                            else Ok (m, i)))
                    s.2;
              Ok (right - 2, mi))
           (size qr - 1, (modules qr, 0));
    _ ← QrCodeUtil.assert (rs.2.2 =? Z.of_nat (length data) * 8);
    Ok (withModules qr rs.2.1).

(** The [switch] of [applyMask]. *)
Definition maskInvert (mask x y : Z) : res bool :=
  match mask with
  | 0 => Ok (JS.rem (x + y) 2 =? 0)
  | 1 => Ok (JS.rem y 2 =? 0)
  | 2 => Ok (JS.rem x 3 =? 0)
  | 3 => Ok (JS.rem (x + y) 3 =? 0)
  | 4 => Ok (JS.rem (JS.floorDiv x 3 + JS.floorDiv y 2) 2 =? 0)
  | 5 => Ok (JS.rem (x * y) 2 + JS.rem (x * y) 3 =? 0)
  | 6 => Ok (JS.rem (JS.rem (x * y) 2 + JS.rem (x * y) 3) 2 =? 0)
  | 7 => Ok (JS.rem (JS.rem (x + y) 2 + JS.rem (x * y) 3) 2 =? 0)
  | _ => Err UnreachableError
  end.

Definition applyMask (mask : Z) (qr : t) : res t :=
  if (mask <? 0) || (mask >? 7) then Err (RangeError "Mask value out of range")
  else
    forM (seqZ 0 (size qr))
      (fun y =>
         forM (seqZ 0 (size qr))
           (fun x qr =>
              invert ← maskInvert mask x y;
              f ← gridGet (isFunction qr) x y;
              if negb f && invert then
                c ← gridGet (modules qr) x y;
                m ← gridSet (modules qr) x y (negb c);
                Ok (withModules qr m)
              else Ok qr))
      qr.

(** *** Penalty score *)

(** The array [runHistory]: seven run lengths, the most recent first. *)
Definition runHistory : Type := (Z * Z * Z * Z * Z * Z * Z)%type.

Definition finderPenaltyCountPatterns (qr : t) (h : runHistory) : res Z :=
  let '(h0, h1, h2, h3, h4, h5, h6) := h in
  let n := h1 in
  _ ← QrCodeUtil.assert (n <=? size qr * 3);
  let core := (n >? 0) && (h2 =? n) && (h3 =? n * 3) && (h4 =? n) && (h5 =? n) in
  Ok ((if core && (h0 >=? n * 4) && (h6 >=? n) then 1 else 0)
      + (if core && (h6 >=? n * 4) && (h0 >=? n) then 1 else 0)).

(** [runHistory.pop(); runHistory.unshift(currentRunLength)] *)
Definition finderPenaltyAddHistory (qr : t) (currentRunLength : Z) (h : runHistory)
  : runHistory :=
  let '(h0, h1, h2, h3, h4, h5, h6) := h in
  let currentRunLength :=
    if h0 =? 0 then currentRunLength + size qr else currentRunLength in
  (currentRunLength, h0, h1, h2, h3, h4, h5).

Definition finderPenaltyTerminateAndCount (qr : t) (currentRunColor : bool)
    (currentRunLength : Z) (h : runHistory) : res Z :=
  let '(currentRunLength, h) :=
    if currentRunColor then (0, finderPenaltyAddHistory qr currentRunLength h)
    else (currentRunLength, h) in
  let currentRunLength := currentRunLength + size qr in
  let h := finderPenaltyAddHistory qr currentRunLength h in
  finderPenaltyCountPatterns qr h.

(** One row or one column of the first two loops of [getPenaltyScore] (the
    source writes the same loop body twice, with x and y exchanged);
    [cell i] reads the i-th module of the line. *)
Definition penaltyLine (qr : t) (cell : Z -> res bool) (result : Z) : res Z :=
  st ← forM (seqZ 0 (size qr))
        (fun i '(result, runColor, runX, h) =>
           c ← cell i;
           if eqb c runColor then
             let runX := runX + 1 in
             let result := if runX =? 5 then result + PENALTY_N1
                           else if runX >? 5 then result + 1 else result in
             Ok (result, runColor, runX, h)
           else
             let h := finderPenaltyAddHistory qr runX h in
             result ← (if negb runColor
                       then n ← finderPenaltyCountPatterns qr h; Ok (result + n * PENALTY_N3)
                       else Ok result);
             Ok (result, c, 1, h))
        (result, false, 0, (0, 0, 0, 0, 0, 0, 0));
  let '(result, runColor, runX, h) := st in
  n ← finderPenaltyTerminateAndCount qr runColor runX h;
  Ok (result + n * PENALTY_N3).

Definition getPenaltyScore (qr : t) : res Z :=
  (* rows, then columns *)
  result ← forM (seqZ 0 (size qr))
            (fun y => penaltyLine qr (fun x => gridGet (modules qr) x y)) 0;
  result ← forM (seqZ 0 (size qr))
            (fun x => penaltyLine qr (fun y => gridGet (modules qr) x y)) result;
  (* 2*2 blocks of modules having the same colour *)
  result ← forM (seqZ 0 (size qr - 1))
            (fun y =>
               forM (seqZ 0 (size qr - 1))
                 (fun x result =>
                    color ← gridGet (modules qr) x y;
                    c1 ← gridGet (modules qr) (x + 1) y;
                    if eqb color c1 then
                      c2 ← gridGet (modules qr) x (y + 1);
                      if eqb color c2 then
                        c3 ← gridGet (modules qr) (x + 1) (y + 1);
                        Ok (if eqb color c3 then result + PENALTY_N2 else result)
                      else Ok result
                    else Ok result))
            result;
  (* balance of dark and light modules *)
  let dark := fold_left
                (fun dark row =>
                   fold_left (fun sum (color : bool) => sum + (if color then 1 else 0)) row dark)
                (modules qr) 0 in
  let total := size qr * size qr in
  let k := JS.ceilDiv (Z.abs (dark * 20 - total * 10)) total - 1 in
  _ ← QrCodeUtil.assert ((0 <=? k) && (k <=? 9));
  let result := result + k * PENALTY_N4 in
  _ ← QrCodeUtil.assert ((0 <=? result) && (result <=? 2568888));
  Ok result.

(** *** The constructor *)

(** The object at the start of the constructor: the size is set, and both
    grids are size*size arrays of [false].  The field [mask] is assigned at
    the end of the constructor and not read before; it holds [msk] here. *)
Definition initial (version : Z) (errorCorrectionLevel : QrEcc.t) (msk : Z) : t :=
  let size := version * 4 + 17 in
  let row := replicate (Z.to_nat size) false in
  Build version errorCorrectionLevel size msk
        (replicate (Z.to_nat size) row) (replicate (Z.to_nat size) row).

Definition new (version : Z) (errorCorrectionLevel : QrEcc.t) (dataCodewords : list Z)
    (msk : Z) : res t :=
  if (version <? MIN_VERSION) || (version >? MAX_VERSION)
  then Err (RangeError "Version value out of range")
  else if (msk <? -1) || (msk >? 7) then Err (RangeError "Mask value out of range")
  else
    let qr := initial version errorCorrectionLevel msk in
    qr ← drawFunctionPatterns qr;
    allCodewords ← addEccAndInterleave qr dataCodewords;
    qr ← drawCodewords allCodewords qr;
    mq ← (if msk =? -1 then
            r ← forM (seqZ 0 8)
                 (fun i '(msk, minPenalty, qr) =>
                    qr ← applyMask i qr;
                    qr ← drawFormatBits i qr;
                    penalty ← getPenaltyScore qr;
                    let '(msk, minPenalty) :=
                      if penalty <? minPenalty then (i, penalty) else (msk, minPenalty) in
                    qr ← applyMask i qr;
                    Ok (msk, minPenalty, qr))
                 (msk, 1000000000, qr);
            Ok (r.1.1, r.2)
          else Ok (msk, qr));
    let '(msk, qr) := mq in
    _ ← QrCodeUtil.assert ((0 <=? msk) && (msk <=? 7));
    qr ← applyMask msk qr;
    qr ← drawFormatBits msk qr;
    Ok (withIsFunction (withMask qr msk) []).

(** *** The factory functions *)

(** The loop that finds the minimal version: [fuel] bounds the number of
    increments of [version]. *)
Fixpoint findVersion (fuel : nat) (segs : list QrSegment.t) (ecl : QrEcc.t)
    (version maxVersion : Z) : res (Z * Z) :=
  n ← getNumDataCodewords version ecl;
  let dataCapacityBits := n * 8 in
  usedBits ← QrSegment.getTotalBits segs version;
  match usedBits with
  | QrSegment.Finite u =>
      if u <=? dataCapacityBits then Ok (version, u)
      else if version >=? maxVersion then Err (RangeError "Data too long")
      else match fuel with
           | O => Err OutOfFuel
           | S fuel' => findVersion fuel' segs ecl (version + 1) maxVersion
           end
  | QrSegment.Infinity =>
      if version >=? maxVersion then Err (RangeError "Data too long")
      else match fuel with
           | O => Err OutOfFuel
           | S fuel' => findVersion fuel' segs ecl (version + 1) maxVersion
           end
  end.

(** The loop that raises the error correction level while the data still
    fits in the version. *)
Definition boostEcc (boostEcl : bool) (version dataUsedBits : Z) (ecl : QrEcc.t)
  : res QrEcc.t :=
  forM [QrEcc.MEDIUM; QrEcc.QUARTILE; QrEcc.HIGH]
    (fun newEcl ecl =>
       if boostEcl then
         n ← getNumDataCodewords version newEcl;
         Ok (if dataUsedBits <=? n * 8 then newEcl else ecl)
       else Ok ecl)
    ecl.

(** The data codewords of the segments at a version and level: the
    concatenated segments, the terminator, the padding, packed into bytes. *)
Definition assembleDataCodewords (segs : list QrSegment.t) (version : Z) (ecl : QrEcc.t)
    (dataUsedBits : Z) : res (list Z) :=
  bb ← forM segs
        (fun seg bb =>
           bb ← QrCodeUtil.appendBits (QrMode.modeBits (QrSegment.mode seg)) 4 bb;
           cc ← QrMode.numCharCountBits (QrSegment.mode seg) version;
           bb ← QrCodeUtil.appendBits (QrSegment.numChars seg) cc bb;
           Ok (bb ++ QrSegment.getData seg))
        [];
  _ ← QrCodeUtil.assert (Z.of_nat (length bb) =? dataUsedBits);
  (* terminator and padding to a byte *)
  n ← getNumDataCodewords version ecl;
  let dataCapacityBits := n * 8 in
  _ ← QrCodeUtil.assert (Z.of_nat (length bb) <=? dataCapacityBits);
  bb ← QrCodeUtil.appendBits 0 (Z.min 4 (dataCapacityBits - Z.of_nat (length bb))) bb;
  bb ← QrCodeUtil.appendBits 0 (JS.rem (8 - JS.rem (Z.of_nat (length bb)) 8) 8) bb;
  _ ← QrCodeUtil.assert (JS.rem (Z.of_nat (length bb)) 8 =? 0);
  (* alternating pad bytes *)
  pb ← while (Z.to_nat dataCapacityBits)
         (fun '(padnumber, bb) => Z.of_nat (length bb) <? dataCapacityBits)
         (fun '(padnumber, bb) =>
            bb ← QrCodeUtil.appendBits padnumber 8 bb;
            Ok (JS.xor padnumber (JS.xor 236 17), bb))
         (236, bb);
  let bb : list Z := pb.2 in
  (* pack the bits into bytes, big endian *)
  dataCodewords ← while (length bb)
                    (fun dataCodewords => Z.of_nat (length dataCodewords) * 8 <? Z.of_nat (length bb))
                    (fun dataCodewords => Ok (dataCodewords ++ [0]))
                    [];
  forEachM bb
    (fun b i dataCodewords =>
       c ← lookupZ dataCodewords (JS.ushr i 3);
       updateZ dataCodewords (JS.ushr i 3) (JS.or c (JS.shl b (7 - JS.and i 7))))
    dataCodewords.

Definition encodeSegments (segs : list QrSegment.t) (ecl : QrEcc.t)
    (minVersion maxVersion mask : Z) (boostEcl : bool) : res t :=
  if negb ((MIN_VERSION <=? minVersion) && (minVersion <=? maxVersion)
           && (maxVersion <=? MAX_VERSION))
     || (mask <? -1) || (mask >? 7)
  then Err (RangeError "Invalid value")
  else
    vu ← findVersion (Z.to_nat (maxVersion - minVersion)) segs ecl minVersion maxVersion;
    let version := vu.1 in
    let dataUsedBits := vu.2 in
    ecl ← boostEcc boostEcl version dataUsedBits ecl;
    dataCodewords ← assembleDataCodewords segs version ecl dataUsedBits;
    new version ecl dataCodewords mask.

Definition encodeText (text : JS.str) (ecl : QrEcc.t) : res t :=
  segs ← QrSegment.makeSegments text;
  encodeSegments segs ecl 1 40 (-1) true.

Definition encodeBinary (data : list Z) (ecl : QrEcc.t) : res t :=
  seg ← QrSegment.makeBytes data;
  encodeSegments [seg] ecl 1 40 (-1) true.

End QrCode.

(** ** MyQrCode, the facade *)

Module MyQrCode.

(** The stored parameters of the facade (the fields that [updateParam]
    touches, and the ones it must leave alone). *)
Record t : Type := Build {
  qrEcc : QrEcc.t;
  minVersion : Z;
  maxVersion : Z;
  version : Z;
  mask : Z;
  boostEcl : bool;
  dataText : JS.str;
  dataBinary : list Z;
}.

(** The argument object of [updateParam]: a field that is not provided is
    [undefined], here [None]. *)
Record params : Type := Params {
  p_qrEcc : option QrEcc.t;
  p_minVersion : option Z;
  p_maxVersion : option Z;
  p_mask : option Z;
  p_boostEcl : option bool;
}.

(** A destructuring default [{ x = d }]: the default replaces [undefined]. *)
Definition orDefault {A : Type} (d : A) (o : option A) : A :=
  match o with Some a => a | None => d end.

(** [a ?? b] where [a] is a defined, non-null value. *)
Definition nullish {A : Type} (a : A) (b : A) : A := a.

Definition updateParam (p : params) (this : t) : t :=
  let qrEcc' := orDefault QrEcc.HIGH (p_qrEcc p) in
  let minVersion' := orDefault 1 (p_minVersion p) in
  let maxVersion' := orDefault 40 (p_maxVersion p) in
  let mask' := orDefault (-1) (p_mask p) in
  let boostEcl' := orDefault true (p_boostEcl p) in
  Build (nullish qrEcc' (qrEcc this))
        (nullish minVersion' (minVersion this))
        (nullish maxVersion' (maxVersion this))
        (version this)
        (nullish mask' (mask this))
        (nullish boostEcl' (boostEcl this))
        (dataText this)
        (dataBinary this).

End MyQrCode.

(** The format and version words are computed on closed arguments only; the
    conversion checks of the proofs below must not unfold them on symbolic
    ones. *)
Strategy 1000 [QrCode.formatBitsWord QrCode.versionBitsWord].

(** * The outcome monad *)

Section Outcomes.

Context {A B : Type}.

Lemma bind_Ok (m : res A) (k : A -> res B) (b : B) :
  mbind k m = Ok b -> exists a, m = Ok a /\ k a = Ok b.
Proof.
  destruct m as [a|]; [|discriminate]. intros H. exists a. split; [reflexivity|exact H].
Qed.

Lemma bind_of_Ok (m : res A) (k : A -> res B) (a : A) :
  m = Ok a -> mbind k m = k a.
Proof. intros ->. reflexivity. Qed.

Lemma bind_of_Err (m : res A) (k : A -> res B) (e : exn) :
  m = Err e -> mbind k m = Err e.
Proof. intros ->. reflexivity. Qed.

End Outcomes.

(** * Specification-side definitions and proof scaffolding *)

(** The closed form of the number of raw data modules, as the
    specification words it. *)
Definition rawDataModulesSpec (v : Z) : Z :=
  let r := (16 * v + 128) * v + 64 in
  let r := if 2 <=? v then let a := v / 7 + 2 in r - ((25 * a - 10) * a - 55) else r in
  if 7 <=? v then r - 36 else r.

(** [isByte], [isBit]: the values a codeword and a bit buffer entry take. *)
Definition isByte (z : Z) : Prop := 0 <= z < 256.
Definition isBit (z : Z) : Prop := z = 0 \/ z = 1.

(** The value of a bit sequence read most significant bit first. *)
Definition bitsValue (bs : list Z) : Z := fold_left (fun acc b => 2 * acc + b) bs 0.

(** The versions of the standard. *)
Definition versions : list Z := seqZ 1 40.
Definition eccLevels : list QrEcc.t := [QrEcc.LOW; QrEcc.MEDIUM; QrEcc.QUARTILE; QrEcc.HIGH].

(** What the capacity tables must satisfy at a version and level, as a
    decidable check. *)
Definition capacityCheck (v : Z) (ecl : QrEcc.t) : bool :=
  match QrCode.getNumRawDataModules v,
        QrCode.tableAt QrCode.ECC_CODEWORDS_PER_BLOCK ecl v,
        QrCode.tableAt QrCode.NUM_ERROR_CORRECTION_BLOCKS ecl v,
        QrCode.getNumDataCodewords v ecl with
  | Ok raw, Ok e, Ok nb, Ok n =>
      (raw =? rawDataModulesSpec v) && (208 <=? raw) && (raw <=? 29648)
      && (n =? raw / 8 - e * nb) && (0 <=? n)
      && (1 <=? nb) && (1 <=? e) && (e <=? 30) && (e <? raw / 8 / nb)
  | _, _, _, _ => false
  end.

(** The [len] low-order bits of [val], most significant first. *)
Definition msbBits (len val : Z) : list Z :=
  map (fun i => Z.b2z (Z.testbit val i)) (reverse (seqZ 0 len)).

(** Settles the integer comparisons of the goal that linear arithmetic
    decides from the hypotheses. *)
Ltac cmp_step :=
  match goal with
  | |- context [?a <? ?b] =>
      first [ replace (a <? b) with true by (symmetry; apply Z.ltb_lt; lia)
            | replace (a <? b) with false by (symmetry; apply Z.ltb_ge; lia) ]
  | |- context [?a <=? ?b] =>
      first [ replace (a <=? b) with true by (symmetry; apply Z.leb_le; lia)
            | replace (a <=? b) with false by (symmetry; apply Z.leb_gt; lia) ]
  | |- context [?a >? ?b] =>
      first [ replace (a >? b) with true by (symmetry; rewrite Z.gtb_ltb; apply Z.ltb_lt; lia)
            | replace (a >? b) with false by (symmetry; rewrite Z.gtb_ltb; apply Z.ltb_ge; lia) ]
  | |- context [?a >=? ?b] =>
      first [ replace (a >=? b) with true by (symmetry; rewrite Z.geb_leb; apply Z.leb_le; lia)
            | replace (a >=? b) with false by (symmetry; rewrite Z.geb_leb; apply Z.leb_gt; lia) ]
  | |- context [?a =? ?b] =>
      first [ replace (a =? b) with true by (symmetry; apply Z.eqb_eq; lia)
            | replace (a =? b) with false by (symmetry; apply Z.eqb_neq; lia) ]
  end.
Ltac cmp := repeat cmp_step; cbn [andb orb negb].

(** A grid of [n] rows of [n] modules. *)
Definition square (n : Z) (g : QrCode.grid) : Prop :=
  length g = Z.to_nat n /\ Forall (fun row => length row = Z.to_nat n) g.

(** The colour stored at (x, y); light outside the grid. *)
Definition cell (g : QrCode.grid) (x y : Z) : bool :=
  match QrCode.gridGet g x y with Ok b => b | Err _ => false end.

(** The symbol under construction has its two grids of the size of the symbol. *)
Definition wellFormed (qr : QrCode.t) : Prop :=
  0 <= QrCode.size qr /\
  square (QrCode.size qr) (QrCode.modules qr) /\
  square (QrCode.size qr) (QrCode.isFunction qr).

(** The mask predicates, as the specification tabulates them. *)
Definition maskPredicate (m x y : Z) : bool :=
  match m with
  | 0 => (x + y) mod 2 =? 0
  | 1 => y mod 2 =? 0
  | 2 => x mod 3 =? 0
  | 3 => (x + y) mod 3 =? 0
  | 4 => (x / 3 + y / 2) mod 2 =? 0
  | 5 => (x * y) mod 2 + (x * y) mod 3 =? 0
  | 6 => ((x * y) mod 2 + (x * y) mod 3) mod 2 =? 0
  | 7 => ((x + y) mod 2 + (x * y) mod 3) mod 2 =? 0
  | _ => false
  end.

(** Everything of a symbol but its modules. *)
Definition sameFrame (qr qr' : QrCode.t) : Prop :=
  QrCode.version qr' = QrCode.version qr /\
  QrCode.errorCorrectionLevel qr' = QrCode.errorCorrectionLevel qr /\
  QrCode.size qr' = QrCode.size qr /\
  QrCode.mask qr' = QrCode.mask qr /\
  QrCode.isFunction qr' = QrCode.isFunction qr.

(** The colour of the module (x, y) of [qr] once the mask [m] has been
    applied: a module that is not a function module and satisfies the
    predicate of the mask is inverted. *)
Definition maskedCell (m : Z) (qr : QrCode.t) (x y : Z) : bool :=
  xorb (cell (QrCode.modules qr) x y)
       (negb (cell (QrCode.isFunction qr) x y) && maskPredicate m x y).

(** The state of [applyMask] in the middle of its loops: the modules
    selected by [done] are masked, the others are as in [qr0]. *)
Definition maskedWhere (m : Z) (qr0 : QrCode.t) (done : Z -> Z -> bool) (qr : QrCode.t)
  : Prop :=
  sameFrame qr0 qr /\ square (QrCode.size qr0) (QrCode.modules qr) /\
  forall x y, 0 <= x < QrCode.size qr0 -> 0 <= y < QrCode.size qr0 ->
              cell (QrCode.modules qr) x y
              = if done x y then maskedCell m qr0 x y else cell (QrCode.modules qr0) x y.

(** Case analysis on every integer comparison of the goal. *)
Ltac zcases :=
  repeat match goal with
         | |- context [?a <? ?b] => destruct (Z.ltb_spec a b)
         | |- context [?a <=? ?b] => destruct (Z.leb_spec a b)
         | |- context [?a =? ?b] => destruct (Z.eqb_spec a b)
         end.

(** What every step of the constructor keeps: the version, the level, the
    size, and the shape of the two grids. *)
Definition frameInv (v : Z) (e : QrEcc.t) (n : Z) (qr : QrCode.t) : Prop :=
  QrCode.version qr = v /\ QrCode.errorCorrectionLevel qr = e /\ QrCode.size qr = n /\
  square n (QrCode.modules qr) /\ square n (QrCode.isFunction qr).

(** Splits a hypothesis [(x ← m; k x) = Ok r] into its two steps. *)
Ltac inv_bind H :=
  let a := fresh "a" in
  let Ha := fresh "Ha" in
  apply bind_Ok in H; destruct H as (a & Ha & H); cbv beta in H.

Tactic Notation "bind_inv" hyp(H) "as" ident(a) ident(Ha) :=
  apply bind_Ok in H; destruct H as (a & Ha & H); cbv beta in H.

(** Runs a step [x ← m; k x] of the goal whose outcome [H : m = Ok a] is known. *)
Ltac step H := rewrite (bind_of_Ok _ _ _ H); cbv beta.

(** One doubling step of [reedSolomonMultiply], and the check that it
    maps bytes to bytes. *)
Definition gfDouble (z : Z) : Z := JS.xor (JS.shl z 1) (JS.ushr z 7 * 285).
Definition gfDoubleCheck (z : Z) : bool := (0 <=? gfDouble z) && (gfDouble z <? 256).

(** Two symbols under construction with the same version, the same size
    and the same function-marker grid. *)
Definition sameMarks (n : Z) (qr qr' : QrCode.t) : Prop :=
  QrCode.version qr' = QrCode.version qr /\ QrCode.size qr = n /\ QrCode.size qr' = n /\
  QrCode.isFunction qr' = QrCode.isFunction qr /\
  square n (QrCode.isFunction qr) /\ square n (QrCode.modules qr').

(** A list, and a grid, indexed by binary positions: the same contents,
    read faster by the checks that run over all the versions. *)
Fixpoint indexFrom {A : Type} (l : list A) (i : positive) : FMapPositive.PositiveMap.t A :=
  match l with
  | [] => FMapPositive.PositiveMap.empty A
  | a :: l' => FMapPositive.PositiveMap.add i a (indexFrom l' (Pos.succ i))
  end.

Definition fastGrid (g : QrCode.grid) : FMapPositive.PositiveMap.t (FMapPositive.PositiveMap.t bool) :=
  indexFrom (map (fun row => indexFrom row 1%positive) g) 1%positive.

Definition fastGet (m : FMapPositive.PositiveMap.t (FMapPositive.PositiveMap.t bool)) (x y : Z) : res bool :=
  if y <? 0 then Err OutOfBounds
  else match FMapPositive.PositiveMap.find (Z.to_pos (y + 1)) m with
       | Some row =>
           if x <? 0 then Err OutOfBounds
           else match FMapPositive.PositiveMap.find (Z.to_pos (x + 1)) row with
                | Some b => Ok b
                | None => Err OutOfBounds
                end
       | None => Err OutOfBounds
       end.

(** The zigzag scan of [drawCodewords] over a symbol of size [n], counting
    the modules that [get] does not report as function modules instead of
    drawing on them. *)
Definition scanCount (n : Z) (get : Z -> Z -> res bool) : res (Z * Z) :=
  while (Z.to_nat n)
    (fun s => s.1 >=? 1)
    (fun s =>
       let right := if s.1 =? 6 then 5 else s.1 in
       let upward := JS.and (right + 1) 2 =? 0 in
       c ← forM (seqZ 0 n)
             (fun vert =>
                forM (seqZ 0 2)
                  (fun j c =>
                     let x := right - j in
                     let y := if upward then n - 1 - vert else vert in
                     f ← get x y;
                     Ok (if negb f then c + 1 else c)))
             s.2;
       Ok (right - 2, c))
    (n - 1, 0).

(** The function patterns of a version can be drawn, and the scan then
    finds as many free modules as [getNumRawDataModules] announces. *)
Definition functionPatternsCheck (v : Z) : bool :=
  match QrCode.drawFunctionPatterns (QrCode.initial v QrEcc.HIGH 0),
        QrCode.getNumRawDataModules v with
  | Ok qr, Ok raw =>
      match scanCount (v * 4 + 17) (fastGet (fastGrid (QrCode.isFunction qr))) with
      | Ok s => s.2 =? raw
      | Err _ => false
      end
  | _, _ => false
  end.

(** The accounting of the penalty of a line: a light run is charged in
    advance for the finder-like patterns that may end it. *)
Definition runPotential (runColor : bool) (runX : Z) : Z :=
  if runColor then 0 else Z.max 20 (Z.min (20 * runX) 60).

(** What the loop over the modules of a line keeps, before module [i] of a
    line of a symbol of size [n], the score being [r0] at the start. *)
Definition lineInv (n r0 i : Z) (st : Z * bool * Z * QrCode.runHistory) : Prop :=
  let '(result, runColor, runX, h) := st in
  let '(h0, _, _, _, _, _, _) := h in
  0 <= runX <= i /\ h0 <= 2 * n /\ r0 <= result /\
  result + runPotential runColor runX <= r0 + 20 * i + 20.

(*AUX*)

(** * Lemmas *)

Section Enumeration.

Lemma versions_spec (v : Z) : 1 <= v <= 40 <-> v ∈ versions.
Proof. unfold versions. rewrite elem_of_seqZ. lia. Qed.

Lemma forall_versions (P : Z -> bool) :
  forallb P versions = true -> forall v, 1 <= v <= 40 -> P v = true.
Proof.
  intros H v Hv. rewrite forallb_forall in H. apply H.
  apply list_elem_of_In, versions_spec, Hv.
Qed.

Lemma forall_eccLevels (P : QrEcc.t -> bool) :
  forallb P eccLevels = true -> forall e, P e = true.
Proof.
  intros H e. rewrite forallb_forall in H. apply H.
  destruct e; simpl; auto.
Qed.

End Enumeration.

(** ** Capacity tables *)

Section Capacity.

Lemma capacityCheck_all :
  forallb (fun v => forallb (capacityCheck v) eccLevels) versions = true.
Proof. vm_compute. reflexivity. Qed.

Lemma capacity_facts (v : Z) (ecl : QrEcc.t) :
  1 <= v <= 40 ->
  exists raw e nb,
    QrCode.getNumRawDataModules v = Ok raw /\
    QrCode.tableAt QrCode.ECC_CODEWORDS_PER_BLOCK ecl v = Ok e /\
    QrCode.tableAt QrCode.NUM_ERROR_CORRECTION_BLOCKS ecl v = Ok nb /\
    QrCode.getNumDataCodewords v ecl = Ok (raw / 8 - e * nb) /\
    raw = rawDataModulesSpec v /\ 208 <= raw <= 29648 /\ 0 <= raw / 8 - e * nb /\
    1 <= nb /\ 1 <= e <= 30 /\ e < raw / 8 / nb.
Proof.
  intros Hv.
  pose proof (forall_versions _ capacityCheck_all v Hv) as H.
  pose proof (forall_eccLevels _ H ecl) as Hc. clear H.
  unfold capacityCheck in Hc.
  destruct (QrCode.getNumRawDataModules v) as [raw|]; [|discriminate].
  destruct (QrCode.tableAt QrCode.ECC_CODEWORDS_PER_BLOCK ecl v) as [e|]; [|discriminate].
  destruct (QrCode.tableAt QrCode.NUM_ERROR_CORRECTION_BLOCKS ecl v) as [nb|]; [|discriminate].
  destruct (QrCode.getNumDataCodewords v ecl) as [n|]; [|discriminate].
  rewrite !andb_true_iff, !Z.eqb_eq, !Z.leb_le, Z.ltb_lt in Hc.
  exists raw, e, nb. destruct_and!. subst n. repeat split; auto; lia.
Qed.

(** C7. For every version v in [1,40], getNumRawDataModules(v) returns the
    closed form of the specification, which lies in [208, 29648]; and for
    every level, getNumDataCodewords(v, ecc) returns
    floor(r/8) - ECC_CODEWORDS_PER_BLOCK[ecc][v] * NUM_ERROR_CORRECTION_BLOCKS[ecc][v],
    a number that is not negative. *)
Theorem getNumRawDataModules_closed_form (v : Z) :
  1 <= v <= 40 ->
  QrCode.getNumRawDataModules v = Ok (rawDataModulesSpec v) /\
  208 <= rawDataModulesSpec v <= 29648 /\
  forall ecc, exists e nb,
    QrCode.tableAt QrCode.ECC_CODEWORDS_PER_BLOCK ecc v = Ok e /\
    QrCode.tableAt QrCode.NUM_ERROR_CORRECTION_BLOCKS ecc v = Ok nb /\
    QrCode.getNumDataCodewords v ecc = Ok (rawDataModulesSpec v / 8 - e * nb) /\
    0 <= rawDataModulesSpec v / 8 - e * nb.
Proof.
  intros Hv.
  destruct (capacity_facts v QrEcc.LOW Hv) as (raw & _ & _ & Hraw & _ & _ & _ & -> & Hr & _).
  split; [exact Hraw|]. split; [exact Hr|].
  intros ecc.
  destruct (capacity_facts v ecc Hv) as (raw' & e & nb & Hraw' & He & Hnb & Hn & -> & _ & H0 & _).
  exists e, nb. auto.
Qed.

Lemma getNumRawDataModules_closed_form_witness :
  QrCode.getNumRawDataModules 7 = Ok 1568 /\ 208 <= rawDataModulesSpec 7 <= 29648 /\
  QrCode.getNumDataCodewords 7 QrEcc.HIGH = Ok 66.
Proof.
  destruct (getNumRawDataModules_closed_form 7 ltac:(lia)) as (H1 & H2 & H3).
  split; [exact H1|]. split; [exact H2|].
  destruct (H3 QrEcc.HIGH) as (e & nb & He & Hnb & Hn & _).
  vm_compute in He, Hnb. injection He as <-. injection Hnb as <-. exact Hn.
Defined.

End Capacity.

(** ** JavaScript integers in range *)

Section JSIntegers.

Lemma toUint32_small (z : Z) : 0 <= z < 4294967296 -> JS.toUint32 z = z.
Proof. intros H. unfold JS.toUint32. apply Z.mod_small. exact H. Qed.

Lemma toInt32_small (z : Z) : -2147483648 <= z < 2147483648 -> JS.toInt32 z = z.
Proof. intros H. unfold JS.toInt32. rewrite Z.mod_small; lia. Qed.

Lemma ushr_small (x n : Z) :
  0 <= x < 4294967296 -> 0 <= n < 32 -> JS.ushr x n = Z.shiftr x n.
Proof.
  intros Hx Hn. unfold JS.ushr. rewrite toUint32_small by exact Hx.
  rewrite Z.mod_small by exact Hn. reflexivity.
Qed.

Lemma shiftr_bounds (x n : Z) : 0 <= x -> 0 <= n -> 0 <= Z.shiftr x n <= x.
Proof.
  intros Hx Hn. rewrite Z.shiftr_div_pow2 by exact Hn.
  assert (0 < 2 ^ n) by (apply Z.pow_pos_nonneg; lia).
  split; [apply Z.div_pos; lia|].
  apply Z.div_le_upper_bound; [lia|]. nia.
Qed.

Lemma and_1_testbit (a : Z) : 0 <= a < 2147483648 -> JS.and a 1 = Z.b2z (Z.testbit a 0).
Proof.
  intros Ha. unfold JS.and. rewrite !toInt32_small by lia.
  change 1 with (Z.ones 1). rewrite Z.land_ones by lia.
  rewrite Z.testbit_spec' by lia. rewrite Z.pow_0_r, Z.div_1_r. reflexivity.
Qed.

Lemma bit_of_ushr (val i : Z) :
  0 <= val < 2147483648 -> 0 <= i < 32 ->
  JS.and (JS.ushr val i) 1 = Z.b2z (Z.testbit val i).
Proof.
  intros Hv Hi. rewrite ushr_small by lia.
  pose proof (shiftr_bounds val i ltac:(lia) ltac:(lia)).
  rewrite and_1_testbit by lia.
  rewrite Z.shiftr_spec by lia. rewrite Z.add_0_l. reflexivity.
Qed.

Lemma getBit_testbit (x i : Z) :
  0 <= x < 2147483648 -> 0 <= i < 32 -> QrCodeUtil.getBit x i = Z.testbit x i.
Proof.
  intros Hx Hi. unfold QrCodeUtil.getBit. rewrite bit_of_ushr by assumption.
  destruct (Z.testbit x i); reflexivity.
Qed.

Lemma lor_lt_pow2 (a b n : Z) :
  0 <= n -> 0 <= a < 2 ^ n -> 0 <= b < 2 ^ n -> 0 <= Z.lor a b < 2 ^ n.
Proof.
  intros Hn Ha Hb.
  assert (H0 : 0 <= Z.lor a b) by (apply Z.lor_nonneg; lia).
  split; [exact H0|].
  destruct (Z.eq_dec (Z.lor a b) 0) as [->|Hne]; [lia|].
  apply Z.log2_lt_pow2; [lia|].
  rewrite Z.log2_lor by lia.
  destruct (Z.eq_dec a 0) as [->|Ha0]; destruct (Z.eq_dec b 0) as [->|Hb0].
  - simpl in Hne. contradiction.
  - change (Z.log2 0) with 0. rewrite Z.max_r by apply Z.log2_nonneg.
    apply Z.log2_lt_pow2; lia.
  - change (Z.log2 0) with 0. rewrite Z.max_l by apply Z.log2_nonneg.
    apply Z.log2_lt_pow2; lia.
  - apply Z.max_lub_lt; apply Z.log2_lt_pow2; lia.
Qed.

Lemma lxor_lt_pow2 (a b n : Z) :
  0 <= n -> 0 <= a < 2 ^ n -> 0 <= b < 2 ^ n -> 0 <= Z.lxor a b < 2 ^ n.
Proof.
  intros Hn Ha Hb.
  assert (H0 : 0 <= Z.lxor a b) by (apply Z.lxor_nonneg; lia).
  split; [exact H0|].
  destruct (Z.eq_dec (Z.lxor a b) 0) as [->|Hne]; [lia|].
  apply Z.log2_lt_pow2; [lia|].
  eapply Z.le_lt_trans; [apply Z.log2_lxor; lia|].
  destruct (Z.eq_dec a 0) as [->|Ha0]; destruct (Z.eq_dec b 0) as [->|Hb0].
  - simpl in Hne. contradiction.
  - change (Z.log2 0) with 0. rewrite Z.max_r by apply Z.log2_nonneg.
    apply Z.log2_lt_pow2; lia.
  - change (Z.log2 0) with 0. rewrite Z.max_l by apply Z.log2_nonneg.
    apply Z.log2_lt_pow2; lia.
  - apply Z.max_lub_lt; apply Z.log2_lt_pow2; lia.
Qed.

Lemma xor_byte (a b : Z) : isByte a -> isByte b -> isByte (JS.xor a b).
Proof.
  unfold isByte, JS.xor. intros Ha Hb. rewrite !toInt32_small by lia.
  apply (lxor_lt_pow2 a b 8); lia.
Qed.

Lemma or_byte (a b : Z) : isByte a -> isByte b -> isByte (JS.or a b).
Proof.
  unfold isByte, JS.or. intros Ha Hb. rewrite !toInt32_small by lia.
  apply (lor_lt_pow2 a b 8); lia.
Qed.

Lemma shl_small (x n : Z) :
  0 <= n < 32 -> 0 <= x -> x * 2 ^ n < 2147483648 -> JS.shl x n = x * 2 ^ n.
Proof.
  intros Hn Hx Hb. unfold JS.shl.
  assert (0 < 2 ^ n) by (apply Z.pow_pos_nonneg; lia).
  rewrite (toInt32_small x) by nia.
  rewrite Z.mod_small by lia. rewrite Z.shiftl_mul_pow2 by lia.
  apply toInt32_small. nia.
Qed.

Lemma shl_1 (n : Z) : 0 <= n <= 30 -> JS.shl 1 n = 2 ^ n.
Proof.
  intros Hn. rewrite shl_small; [lia|lia|lia|].
  assert (2 ^ n <= 2 ^ 30) by (apply Z.pow_le_mono_r; lia).
  change (2 ^ 30) with 1073741824 in *. lia.
Qed.

Lemma ushr_3 (i : Z) : 0 <= i < 4294967296 -> JS.ushr i 3 = i / 8.
Proof.
  intros Hi. rewrite ushr_small by lia. rewrite Z.shiftr_div_pow2 by lia. reflexivity.
Qed.

Lemma and_7 (i : Z) : 0 <= i < 2147483648 -> JS.and i 7 = i mod 8.
Proof.
  intros Hi. unfold JS.and. rewrite !toInt32_small by lia.
  change 7 with (Z.ones 3). rewrite Z.land_ones by lia. reflexivity.
Qed.

End JSIntegers.

(** ** Bit buffers *)

Section BitBuffers.

Lemma b2z_isBit (b : bool) : isBit (Z.b2z b).
Proof. destruct b; [right|left]; reflexivity. Qed.

Lemma msbBits_length (len val : Z) : 0 <= len -> Z.of_nat (length (msbBits len val)) = len.
Proof.
  intros H. unfold msbBits. rewrite length_map, length_reverse, length_seqZ. lia.
Qed.

Lemma msbBits_isBit (len val : Z) : Forall isBit (msbBits len val).
Proof.
  unfold msbBits. apply Forall_forall. intros b Hb.
  apply list_elem_of_fmap in Hb. destruct Hb as (i & -> & _). apply b2z_isBit.
Qed.

Lemma msbBits_succ (n : nat) (val : Z) :
  msbBits (Z.of_nat (S n)) val = Z.b2z (Z.testbit val (Z.of_nat n)) :: msbBits (Z.of_nat n) val.
Proof.
  unfold msbBits. rewrite seqZ_S, reverse_app. reflexivity.
Qed.

Lemma bitsValue_from (bs : list Z) (acc : Z) :
  fold_left (fun acc b => 2 * acc + b) bs acc = acc * 2 ^ Z.of_nat (length bs) + bitsValue bs.
Proof.
  unfold bitsValue. revert acc. induction bs as [|b bs IH]; intros acc.
  - simpl. lia.
  - cbn [fold_left length]. rewrite IH, (IH (2 * 0 + b)).
    rewrite Nat2Z.inj_succ, Z.pow_succ_r by lia. lia.
Qed.

(** The bits written for a value are the binary digits of that value. *)
Lemma msbBits_value (n : nat) (val : Z) :
  0 <= val -> bitsValue (msbBits (Z.of_nat n) val) = val mod 2 ^ Z.of_nat n.
Proof.
  intros Hv. induction n as [|n IH].
  - unfold msbBits, bitsValue. simpl. rewrite Z.mod_1_r. reflexivity.
  - rewrite msbBits_succ. unfold bitsValue. cbn [fold_left].
    rewrite bitsValue_from, IH.
    assert (Hlen : Z.of_nat (length (msbBits (Z.of_nat n) val)) = Z.of_nat n)
      by (apply msbBits_length; lia).
    rewrite Hlen. rewrite Nat2Z.inj_succ, Z.pow_succ_r by lia.
    rewrite (Z.mul_comm 2 (2 ^ Z.of_nat n)).
    assert (0 < 2 ^ Z.of_nat n) by (apply Z.pow_pos_nonneg; lia).
    rewrite Z.rem_mul_r by lia.
    rewrite Z.testbit_spec' by lia. lia.
Qed.

Lemma appendBits_ok (val len : Z) (bb : list Z) :
  0 <= len <= 31 -> 0 <= val < 2 ^ len ->
  QrCodeUtil.appendBits val len bb = Ok (bb ++ msbBits len val).
Proof.
  intros Hlen Hval.
  assert (Hp : 2 ^ len <= 2 ^ 31) by (apply Z.pow_le_mono_r; lia).
  change (2 ^ 31) with 2147483648 in Hp.
  unfold QrCodeUtil.appendBits.
  assert (Hs : JS.ushr val len = 0).
  { unfold JS.ushr. rewrite toUint32_small by lia.
    destruct (Z.eq_dec len 0) as [->|Hne].
    - change (0 mod 32) with 0. rewrite Z.shiftr_0_r. change (2 ^ 0) with 1 in Hval. lia.
    - rewrite Z.mod_small by lia. rewrite Z.shiftr_div_pow2 by lia.
      apply Z.div_small. lia. }
  rewrite Hs.
  replace (len <? 0) with false by (symmetry; apply Z.ltb_ge; lia).
  replace (len >? 31) with false by (symmetry; rewrite Z.gtb_ltb; apply Z.ltb_ge; lia).
  cbn [orb negb Z.eqb]. f_equal. f_equal. unfold msbBits.
  apply map_ext_in. intros i Hi.
  apply list_elem_of_In, elem_of_reverse, elem_of_seqZ in Hi.
  apply bit_of_ushr; lia.
Qed.

Lemma appendBits_out_of_range (val len : Z) (bb : list Z) :
  len < 0 \/ 31 < len ->
  QrCodeUtil.appendBits val len bb = Err (RangeError "Value out of range").
Proof.
  intros H. unfold QrCodeUtil.appendBits.
  destruct H as [H|H].
  - replace (len <? 0) with true by (symmetry; apply Z.ltb_lt; lia). reflexivity.
  - replace (len >? 31) with true by (symmetry; rewrite Z.gtb_ltb; apply Z.ltb_lt; lia).
    rewrite orb_true_r. reflexivity.
Qed.

End BitBuffers.

(** ** ECI segments *)

Section Eci.

Lemma msbBits_field (n : nat) (v : Z) :
  0 <= v < 2 ^ Z.of_nat n ->
  Z.of_nat (length (msbBits (Z.of_nat n) v)) = Z.of_nat n /\
  Forall isBit (msbBits (Z.of_nat n) v) /\
  bitsValue (msbBits (Z.of_nat n) v) = v.
Proof.
  intros Hv. split; [apply msbBits_length; lia|]. split; [apply msbBits_isBit|].
  rewrite msbBits_value by lia. apply Z.mod_small. exact Hv.
Qed.

(** C6. makeEci(v) throws a RangeError when v < 0 or v >= 10^6; otherwise it
    returns a segment of mode ECI with num_chars = 0 whose data is: v in 8
    bits when v < 128; the prefix 10 and v in 14 bits when 128 <= v < 2^14;
    the prefix 110 and v in 21 bits when 2^14 <= v < 10^6.  "v in k bits"
    is a field of k bits, most significant first, whose value is v. *)
Theorem makeEci_spec (v : Z) :
  (v < 0 \/ 1000000 <= v ->
   QrSegment.makeEci v = Err (RangeError "ECI assignment value out of range")) /\
  (0 <= v < 128 ->
   exists field,
     QrSegment.makeEci v = Ok (QrSegment.Build QrMode.ECI 0 field) /\
     length field = 8%nat /\ Forall isBit field /\ bitsValue field = v) /\
  (128 <= v < 2 ^ 14 ->
   exists field,
     QrSegment.makeEci v = Ok (QrSegment.Build QrMode.ECI 0 ([1; 0] ++ field)) /\
     length field = 14%nat /\ Forall isBit field /\ bitsValue field = v) /\
  (2 ^ 14 <= v < 1000000 ->
   exists field,
     QrSegment.makeEci v = Ok (QrSegment.Build QrMode.ECI 0 ([1; 1; 0] ++ field)) /\
     length field = 21%nat /\ Forall isBit field /\ bitsValue field = v).
Proof.
  change (2 ^ 14) with 16384.
  unfold QrSegment.makeEci.
  change (JS.shl 1 7) with 128. change (JS.shl 1 14) with 16384.
  split; [|split; [|split]].
  - intros [H|H]; cmp; reflexivity.
  - intros H. cmp.
    rewrite (appendBits_ok v 8) by (change (2 ^ 8) with 256; lia).
    destruct (msbBits_field 8 v) as (Hl & Hb & Hval); [change (2 ^ Z.of_nat 8) with 256; lia|].
    exists (msbBits 8 v). split; [reflexivity|]. split; [apply Nat2Z.inj; exact Hl|]. split; assumption.
  - intros H. cmp.
    rewrite (appendBits_ok 2 2) by (change (2 ^ 2) with 4; lia).
    cbn [mbind res_bind].
    rewrite (appendBits_ok v 14) by (change (2 ^ 14) with 16384; lia).
    destruct (msbBits_field 14 v) as (Hl & Hb & Hval); [change (2 ^ Z.of_nat 14) with 16384; lia|].
    exists (msbBits 14 v). split; [reflexivity|]. split; [apply Nat2Z.inj; exact Hl|]. split; assumption.
  - intros H. cmp.
    rewrite (appendBits_ok 6 3) by (change (2 ^ 3) with 8; lia).
    cbn [mbind res_bind].
    rewrite (appendBits_ok v 21) by (change (2 ^ 21) with 2097152; lia).
    destruct (msbBits_field 21 v) as (Hl & Hb & Hval); [change (2 ^ Z.of_nat 21) with 2097152; lia|].
    exists (msbBits 21 v). split; [reflexivity|]. split; [apply Nat2Z.inj; exact Hl|]. split; assumption.
Qed.

(** The boundary values 127/128, 16383/16384 and 999999/1000000. *)
Lemma makeEci_boundaries :
  QrSegment.makeEci 127 = Ok (QrSegment.Build QrMode.ECI 0 [0; 1; 1; 1; 1; 1; 1; 1]) /\
  QrSegment.makeEci 128
  = Ok (QrSegment.Build QrMode.ECI 0 [1; 0; 0; 0; 0; 0; 0; 0; 1; 0; 0; 0; 0; 0; 0; 0]) /\
  QrSegment.makeEci 16383
  = Ok (QrSegment.Build QrMode.ECI 0 [1; 0; 1; 1; 1; 1; 1; 1; 1; 1; 1; 1; 1; 1; 1; 1]) /\
  QrSegment.makeEci 16384
  = Ok (QrSegment.Build QrMode.ECI 0
          [1; 1; 0; 0; 0; 0; 0; 0; 0; 1; 0; 0; 0; 0; 0; 0; 0; 0; 0; 0; 0; 0; 0; 0]) /\
  QrSegment.makeEci 999999
  = Ok (QrSegment.Build QrMode.ECI 0
          [1; 1; 0; 0; 1; 1; 1; 1; 0; 1; 0; 0; 0; 0; 1; 0; 0; 0; 1; 1; 1; 1; 1; 1]) /\
  QrSegment.makeEci 1000000 = Err (RangeError "ECI assignment value out of range") /\
  QrSegment.makeEci (-1) = Err (RangeError "ECI assignment value out of range").
Proof. vm_compute. repeat split; reflexivity. Qed.

Lemma makeEci_spec_witness :
  QrSegment.makeEci (-1) = Err (RangeError "ECI assignment value out of range") /\
  (exists field,
     QrSegment.makeEci 127 = Ok (QrSegment.Build QrMode.ECI 0 field) /\
     length field = 8%nat /\ Forall isBit field /\ bitsValue field = 127) /\
  (exists field,
     QrSegment.makeEci 128 = Ok (QrSegment.Build QrMode.ECI 0 ([1; 0] ++ field)) /\
     length field = 14%nat /\ Forall isBit field /\ bitsValue field = 128) /\
  (exists field,
     QrSegment.makeEci 16384 = Ok (QrSegment.Build QrMode.ECI 0 ([1; 1; 0] ++ field)) /\
     length field = 21%nat /\ Forall isBit field /\ bitsValue field = 16384).
Proof.
  split; [apply (makeEci_spec (-1)); lia|].
  split; [apply (makeEci_spec 127); lia|].
  split; [apply (makeEci_spec 128); change (2 ^ 14) with 16384; lia|].
  apply (makeEci_spec 16384); change (2 ^ 14) with 16384; lia.
Defined.

End Eci.

(** ** The facade *)

Section Facade.

Lemma updateParam_assigns_provided (p : MyQrCode.params) (this : MyQrCode.t) :
  (forall e, MyQrCode.p_qrEcc p = Some e -> MyQrCode.qrEcc (MyQrCode.updateParam p this) = e) /\
  (forall n, MyQrCode.p_minVersion p = Some n ->
             MyQrCode.minVersion (MyQrCode.updateParam p this) = n) /\
  (forall n, MyQrCode.p_maxVersion p = Some n ->
             MyQrCode.maxVersion (MyQrCode.updateParam p this) = n) /\
  (forall n, MyQrCode.p_mask p = Some n -> MyQrCode.mask (MyQrCode.updateParam p this) = n) /\
  (forall b, MyQrCode.p_boostEcl p = Some b ->
             MyQrCode.boostEcl (MyQrCode.updateParam p this) = b).
Proof.
  unfold MyQrCode.updateParam, MyQrCode.nullish, MyQrCode.orDefault. simpl.
  repeat split; intros ? ->; reflexivity.
Qed.

Lemma updateParam_resets_omitted (p : MyQrCode.params) (this : MyQrCode.t) :
  (MyQrCode.p_qrEcc p = None ->
   MyQrCode.qrEcc (MyQrCode.updateParam p this) = QrEcc.HIGH) /\
  (MyQrCode.p_minVersion p = None -> MyQrCode.minVersion (MyQrCode.updateParam p this) = 1) /\
  (MyQrCode.p_maxVersion p = None -> MyQrCode.maxVersion (MyQrCode.updateParam p this) = 40) /\
  (MyQrCode.p_mask p = None -> MyQrCode.mask (MyQrCode.updateParam p this) = -1) /\
  (MyQrCode.p_boostEcl p = None -> MyQrCode.boostEcl (MyQrCode.updateParam p this) = true).
Proof.
  unfold MyQrCode.updateParam, MyQrCode.nullish, MyQrCode.orDefault. simpl.
  repeat split; intros ->; reflexivity.
Qed.

(** C9, at the failing input.  An instance that stores the level LOW
    receives an argument object without the field qrEcc: the stored level
    becomes HIGH, where the claim says that it is left unchanged. *)
Theorem updateParam_omitted_qrEcc_is_overwritten :
  let this := MyQrCode.Build QrEcc.LOW 1 40 1 (-1) true [] [] in
  let arg := MyQrCode.Params None (Some 1) (Some 40) (Some (-1)) (Some true) in
  MyQrCode.qrEcc this = QrEcc.LOW /\
  MyQrCode.qrEcc (MyQrCode.updateParam arg this) = QrEcc.HIGH.
Proof.
  intros this arg.
  split; [reflexivity|].
  apply updateParam_resets_omitted. reflexivity.
Qed.

End Facade.

(** ** Arrays and grids *)

Section Grids.

Lemma lookupZ_Ok {A : Type} (l : list A) (i : Z) (a : A) :
  lookupZ l i = Ok a <-> 0 <= i /\ l !! Z.to_nat i = Some a.
Proof.
  unfold lookupZ. destruct (Z.ltb_spec i 0).
  - split; [discriminate|lia].
  - destruct (l !! Z.to_nat i) as [b|].
    + split; [intros [= ->]; auto|intros [_ [= ->]]; reflexivity].
    + split; [discriminate|intros [_ ?]; discriminate].
Qed.

Lemma lookupZ_in_range {A : Type} (l : list A) (i : Z) :
  0 <= i < Z.of_nat (length l) -> exists a, lookupZ l i = Ok a.
Proof.
  intros H. destruct (lookup_lt_is_Some_2 l (Z.to_nat i)) as [a Ha]; [lia|].
  exists a. apply lookupZ_Ok. split; [lia|exact Ha].
Qed.

Lemma lookupZ_Ok_range {A : Type} (l : list A) (i : Z) (a : A) :
  lookupZ l i = Ok a -> 0 <= i < Z.of_nat (length l).
Proof.
  intros H. apply lookupZ_Ok in H. destruct H as [H0 H].
  apply lookup_lt_Some in H. lia.
Qed.

Lemma updateZ_Ok {A : Type} (l : list A) (i : Z) (a : A) (l' : list A) :
  updateZ l i a = Ok l' <-> 0 <= i < Z.of_nat (length l) /\ l' = <[Z.to_nat i := a]> l.
Proof.
  unfold updateZ.
  destruct (Z.leb_spec 0 i); destruct (Z.ltb_spec i (Z.of_nat (length l))); simpl;
    (split; [first [intros [= <-]; split; [lia|reflexivity] | discriminate]
            | intros [? ->]; first [reflexivity | lia]]).
Qed.

Lemma updateZ_length {A : Type} (l : list A) (i : Z) (a : A) (l' : list A) :
  updateZ l i a = Ok l' -> length l' = length l.
Proof. intros H. apply updateZ_Ok in H. destruct H as [_ ->]. apply length_insert. Qed.

Lemma gridGet_Ok (g : QrCode.grid) (x y : Z) (b : bool) :
  QrCode.gridGet g x y = Ok b <->
  exists row, 0 <= y /\ g !! Z.to_nat y = Some row /\ 0 <= x /\ row !! Z.to_nat x = Some b.
Proof.
  unfold QrCode.gridGet. split.
  - destruct (lookupZ g y) as [row|] eqn:Hrow; [|discriminate].
    cbn [mbind res_bind]. intros Hx.
    apply lookupZ_Ok in Hrow. apply lookupZ_Ok in Hx. exists row. tauto.
  - intros (row & Hy & Hrow & Hx & Hb).
    assert (Hr : lookupZ g y = Ok row) by (apply lookupZ_Ok; auto).
    rewrite Hr. cbn [mbind res_bind]. apply lookupZ_Ok; auto.
Qed.

Lemma gridSet_Ok (g : QrCode.grid) (x y : Z) (b : bool) (g' : QrCode.grid) :
  QrCode.gridSet g x y b = Ok g' <->
  exists row, 0 <= y /\ g !! Z.to_nat y = Some row /\ 0 <= x < Z.of_nat (length row) /\
              g' = <[Z.to_nat y := <[Z.to_nat x := b]> row]> g.
Proof.
  unfold QrCode.gridSet. split.
  - destruct (lookupZ g y) as [row|] eqn:Hrow; [|discriminate].
    cbn [mbind res_bind].
    destruct (updateZ row x b) as [row'|] eqn:Hrow'; [|discriminate].
    cbn [mbind res_bind]. intros Hg.
    apply lookupZ_Ok in Hrow. apply updateZ_Ok in Hrow'. apply updateZ_Ok in Hg.
    exists row. destruct Hrow, Hrow' as [? ->], Hg as [? ->]. auto.
  - intros (row & Hy & Hrow & Hx & ->).
    assert (Hr : lookupZ g y = Ok row) by (apply lookupZ_Ok; auto).
    rewrite Hr. cbn [mbind res_bind].
    assert (Hu : updateZ row x b = Ok (<[Z.to_nat x := b]> row)) by (apply updateZ_Ok; auto).
    rewrite Hu. cbn [mbind res_bind]. apply updateZ_Ok. split; [|reflexivity].
    apply lookup_lt_Some in Hrow. lia.
Qed.

Lemma square_lookup (n : Z) (g : QrCode.grid) (y : Z) :
  square n g -> 0 <= y < n -> exists row, g !! Z.to_nat y = Some row /\ length row = Z.to_nat n.
Proof.
  intros [Hl Hrows] Hy.
  destruct (lookup_lt_is_Some_2 g (Z.to_nat y)) as [row Hrow]; [lia|].
  exists row. split; [exact Hrow|].
  rewrite Forall_lookup in Hrows. exact (Hrows _ _ Hrow).
Qed.

Lemma gridGet_square (n : Z) (g : QrCode.grid) (x y : Z) :
  square n g -> 0 <= x < n -> 0 <= y < n -> QrCode.gridGet g x y = Ok (cell g x y).
Proof.
  intros Hsq Hx Hy. destruct (square_lookup n g y Hsq Hy) as (row & Hrow & Hlen).
  destruct (lookup_lt_is_Some_2 row (Z.to_nat x)) as [b Hb]; [lia|].
  assert (H : QrCode.gridGet g x y = Ok b).
  { apply gridGet_Ok. exists row. repeat split; auto; lia. }
  unfold cell. rewrite H. reflexivity.
Qed.

Lemma gridSet_square (n : Z) (g : QrCode.grid) (x y : Z) (b : bool) :
  square n g -> 0 <= x < n -> 0 <= y < n ->
  exists g', QrCode.gridSet g x y b = Ok g' /\ square n g' /\
             forall x' y', cell g' x' y' = if (x' =? x) && (y' =? y) then b else cell g x' y'.
Proof.
  intros Hsq Hx Hy. destruct (square_lookup n g y Hsq Hy) as (row & Hrow & Hlen).
  exists (<[Z.to_nat y := <[Z.to_nat x := b]> row]> g).
  split; [apply gridSet_Ok; exists row; repeat split; auto; lia|].
  destruct Hsq as [Hl Hrows]. split.
  - split; [rewrite length_insert; exact Hl|].
    apply Forall_insert; [exact Hrows|]. cbn beta. rewrite length_insert. exact Hlen.
  - intros x' y'. unfold cell, QrCode.gridGet, lookupZ.
    destruct (Z.ltb_spec y' 0) as [Hy'|Hy'].
    { replace (y' =? y) with false by (symmetry; apply Z.eqb_neq; lia).
      rewrite andb_false_r. reflexivity. }
    destruct (Z.eqb_spec y' y) as [->|Hne].
    + rewrite list_lookup_insert_eq by (apply lookup_lt_Some in Hrow; exact Hrow).
      rewrite Hrow. cbn [mbind res_bind].
      destruct (Z.ltb_spec x' 0) as [Hx'|Hx'].
      { replace (x' =? x) with false by (symmetry; apply Z.eqb_neq; lia). reflexivity. }
      destruct (Z.eqb_spec x' x) as [->|Hnx].
      * rewrite list_lookup_insert_eq by lia. reflexivity.
      * rewrite list_lookup_insert_ne by lia. reflexivity.
    + rewrite andb_false_r. rewrite list_lookup_insert_ne by lia. reflexivity.
Qed.

(** A write that succeeds keeps the shape of the grid. *)
Lemma gridSet_shape (n : Z) (g : QrCode.grid) (x y : Z) (b : bool) (g' : QrCode.grid) :
  QrCode.gridSet g x y b = Ok g' -> square n g -> square n g'.
Proof.
  intros H [Hl Hrows]. apply gridSet_Ok in H.
  destruct H as (row & Hy & Hrow & Hx & ->). split.
  - rewrite length_insert. exact Hl.
  - apply Forall_insert; [exact Hrows|]. cbn beta. rewrite length_insert.
    rewrite Forall_lookup in Hrows. exact (Hrows _ _ Hrow).
Qed.

Lemma gridSet_in_range (n : Z) (g : QrCode.grid) (x y : Z) (b : bool) (g' : QrCode.grid) :
  QrCode.gridSet g x y b = Ok g' -> square n g -> 0 <= x < n /\ 0 <= y < n.
Proof.
  intros H [Hl Hrows]. apply gridSet_Ok in H.
  destruct H as (row & Hy & Hrow & Hx & ->).
  rewrite Forall_lookup in Hrows. pose proof (Hrows _ _ Hrow) as Hlen.
  apply lookup_lt_Some in Hrow. lia.
Qed.

(** Two square grids with the same cells are the same grid. *)
Lemma grid_ext (n : Z) (g g' : QrCode.grid) :
  square n g -> square n g' ->
  (forall x y, 0 <= x < n -> 0 <= y < n -> cell g x y = cell g' x y) -> g = g'.
Proof.
  intros Hg Hg' Hc. apply list_eq. intros j.
  destruct (decide (j < Z.to_nat n)%nat) as [Hj|Hj].
  - destruct (square_lookup n g (Z.of_nat j) Hg ltac:(lia)) as (row & Hrow & Hlen).
    destruct (square_lookup n g' (Z.of_nat j) Hg' ltac:(lia)) as (row' & Hrow' & Hlen').
    rewrite Nat2Z.id in Hrow, Hrow'. rewrite Hrow, Hrow'. f_equal.
    apply list_eq. intros i.
    destruct (decide (i < Z.to_nat n)%nat) as [Hi|Hi].
    + specialize (Hc (Z.of_nat i) (Z.of_nat j) ltac:(lia) ltac:(lia)).
      destruct (lookup_lt_is_Some_2 row i) as [b Hb]; [lia|].
      destruct (lookup_lt_is_Some_2 row' i) as [b' Hb']; [lia|].
      assert (H1 : QrCode.gridGet g (Z.of_nat i) (Z.of_nat j) = Ok b).
      { apply gridGet_Ok. exists row. rewrite !Nat2Z.id. repeat split; auto; lia. }
      assert (H2 : QrCode.gridGet g' (Z.of_nat i) (Z.of_nat j) = Ok b').
      { apply gridGet_Ok. exists row'. rewrite !Nat2Z.id. repeat split; auto; lia. }
      unfold cell in Hc. rewrite H1 in Hc. rewrite H2 in Hc. rewrite Hb, Hb'. congruence.
    + rewrite !lookup_ge_None_2 by lia. reflexivity.
  - destruct Hg as [Hl _], Hg' as [Hl' _].
    rewrite !lookup_ge_None_2 by lia. reflexivity.
Qed.

End Grids.

(** ** Loops *)

Section Loops.

Context {A St : Type}.

Lemma forM_app (l1 l2 : list A) (f : A -> St -> res St) (s : St) :
  forM (l1 ++ l2) f s = (s' ← forM l1 f s; forM l2 f s').
Proof.
  revert s. induction l1 as [|a l1 IH]; intros s; simpl; [reflexivity|].
  destruct (f a s) as [s1|e]; simpl; [apply IH|reflexivity].
Qed.

(** A loop whose body keeps an invariant, and never fails under it. *)
Lemma forM_inv (I : St -> Prop) (l : list A) (f : A -> St -> res St) :
  (forall a s, a ∈ l -> I s -> exists s', f a s = Ok s' /\ I s') ->
  forall s, I s -> exists s', forM l f s = Ok s' /\ I s'.
Proof.
  induction l as [|a l IH]; intros Hstep s Hs.
  - exists s. split; [reflexivity|exact Hs].
  - destruct (Hstep a s ltac:(left) Hs) as (s1 & H1 & HI1).
    destruct (IH (fun b t Hb => Hstep b t (list_elem_of_further _ _ _ Hb)) s1 HI1)
      as (s2 & H2 & HI2).
    exists s2. split; [|exact HI2]. simpl. rewrite H1. exact H2.
Qed.

(** A result of a loop keeps what every successful step keeps. *)
Lemma forM_preserves (I : St -> Prop) (l : list A) (f : A -> St -> res St) :
  (forall a s s', a ∈ l -> I s -> f a s = Ok s' -> I s') ->
  forall s s', I s -> forM l f s = Ok s' -> I s'.
Proof.
  induction l as [|a l IH]; intros Hstep s s' Hs H.
  - injection H as <-. exact Hs.
  - simpl in H. destruct (f a s) as [s1|e] eqn:H1; [|discriminate].
    simpl in H.
    apply (IH (fun b t t' Hb => Hstep b t t' (list_elem_of_further _ _ _ Hb)) s1 s'); [|exact H].
    exact (Hstep a s s1 ltac:(left) Hs H1).
Qed.

Lemma forM_ext (l : list A) (f g : A -> St -> res St) (s : St) :
  (forall a t, a ∈ l -> f a t = g a t) -> forM l f s = forM l g s.
Proof.
  revert s. induction l as [|a l IH]; intros s H; simpl; [reflexivity|].
  rewrite (H a s ltac:(left)). destruct (g a s) as [s1|e]; simpl; [|reflexivity].
  apply IH. intros b t Hb. apply H. right. exact Hb.
Qed.

Lemma while_preserves (I : St -> Prop) (cond : St -> bool) (body : St -> res St) :
  (forall s s', I s -> cond s = true -> body s = Ok s' -> I s') ->
  forall fuel s s', I s -> while fuel cond body s = Ok s' -> I s'.
Proof.
  intros Hstep. induction fuel as [|fuel IH]; intros s s' Hs H; simpl in H.
  - destruct (cond s); [discriminate|]. injection H as <-. exact Hs.
  - destruct (cond s) eqn:Hc; [|injection H as <-; exact Hs].
    destruct (body s) as [s1|e] eqn:Hb; [|discriminate]. simpl in H.
    apply (IH s1 s'); [|exact H]. exact (Hstep s s1 Hs Hc Hb).
Qed.

End Loops.

Section CountedLoops.

Context {St : Type}.

(** The invariant of a counted loop: [I i] holds before the iteration [i]. *)
Lemma forM_seqZ_inv (I : Z -> St -> Prop) (f : Z -> St -> res St) (a n : Z) :
  0 <= n ->
  (forall i s, a <= i < a + n -> I i s -> exists s', f i s = Ok s' /\ I (i + 1) s') ->
  forall s, I a s -> exists s', forM (seqZ a n) f s = Ok s' /\ I (a + n) s'.
Proof.
  intros Hn. rewrite <- (Z2Nat.id n Hn). generalize (Z.to_nat n) as k. clear n Hn.
  induction k as [|k IH]; intros Hstep s Hs.
  - exists s. rewrite Z.add_0_r. split; [reflexivity|exact Hs].
  - rewrite seqZ_S, forM_app.
    destruct (IH (fun i t Hi => Hstep i t ltac:(lia)) s Hs) as (s1 & H1 & HI1).
    rewrite H1. cbn [mbind res_bind forM].
    destruct (Hstep (a + Z.of_nat k) s1 ltac:(lia) HI1) as (s2 & H2 & HI2).
    rewrite H2. exists s2. split; [reflexivity|].
    replace (a + Z.of_nat (S k)) with (a + Z.of_nat k + 1) by lia. exact HI2.
Qed.

End CountedLoops.

Section IndexedLoops.

Context {A St : Type}.

Lemma forM_zip_seqZ_inv (I : Z -> St -> Prop) (body : A -> Z -> St -> res St) (l : list A) :
  forall a,
    (forall k x s, l !! k = Some x -> I (a + Z.of_nat k) s ->
                   exists s', body x (a + Z.of_nat k) s = Ok s' /\ I (a + Z.of_nat k + 1) s') ->
    forall s, I a s ->
              exists s', forM (zip l (seqZ a (Z.of_nat (length l)))) (fun ai => body ai.1 ai.2) s
                         = Ok s' /\ I (a + Z.of_nat (length l)) s'.
Proof.
  induction l as [|x l IH]; intros a Hstep s Hs.
  - exists s. cbn. rewrite Z.add_0_r. auto.
  - cbn [length]. rewrite Nat2Z.inj_succ. rewrite seqZ_cons by lia.
    rewrite Z.pred_succ. cbn [zip zip_with forM fst snd].
    destruct (Hstep 0%nat x s eq_refl) as (s1 & H1 & HI1);
      [rewrite Z.add_0_r; exact Hs|].
    rewrite Z.add_0_r in H1, HI1. rewrite H1. cbn [mbind res_bind].
    destruct (IH (Z.succ a)) with (s := s1) as (s2 & H2 & HI2).
    + intros k y t Hk Ht.
      destruct (Hstep (S k) y t Hk) as (t' & Ht' & HIt').
      * replace (a + Z.of_nat (S k)) with (Z.succ a + Z.of_nat k) by lia. exact Ht.
      * exists t'. replace (Z.succ a + Z.of_nat k) with (a + Z.of_nat (S k)) by lia. auto.
    + replace (Z.succ a) with (a + 1) by lia. exact HI1.
    + exists s2. split; [exact H2|].
      replace (a + Z.succ (Z.of_nat (length l))) with (Z.succ a + Z.of_nat (length l)) by lia.
      exact HI2.
Qed.

(** The invariant of a [forEach]: [I j] holds before the j-th element. *)
Lemma forEachM_inv (I : Z -> St -> Prop) (body : A -> Z -> St -> res St) (l : list A) :
  (forall j x s, 0 <= j < Z.of_nat (length l) -> l !! Z.to_nat j = Some x -> I j s ->
                 exists s', body x j s = Ok s' /\ I (j + 1) s') ->
  forall s, I 0 s -> exists s', forEachM l body s = Ok s' /\ I (Z.of_nat (length l)) s'.
Proof.
  intros Hstep s Hs. unfold forEachM.
  destruct (forM_zip_seqZ_inv I body l 0) with (s := s) as (s' & H' & HI'); [|exact Hs|].
  - intros k x t Hk Ht. rewrite Z.add_0_l in *. apply Hstep; [|rewrite Nat2Z.id; exact Hk|exact Ht].
    apply lookup_lt_Some in Hk. lia.
  - exists s'. split; [exact H'|]. rewrite Z.add_0_l in HI'. exact HI'.
Qed.

End IndexedLoops.

(** ** Masking *)

Section Masking.

Lemma maskInvert_spec (m x y : Z) :
  0 <= m <= 7 -> 0 <= x -> 0 <= y -> QrCode.maskInvert m x y = Ok (maskPredicate m x y).
Proof.
  intros Hm Hx Hy.
  assert (Hxy : 0 <= x * y) by nia.
  assert (H2 : forall a, 0 <= a mod 2 < 2) by (intros; apply Z.mod_pos_bound; lia).
  assert (H3 : forall a, 0 <= a mod 3 < 3) by (intros; apply Z.mod_pos_bound; lia).
  pose proof (H2 (x * y)). pose proof (H3 (x * y)). pose proof (H2 (x + y)).
  assert (Hd3 : 0 <= x / 3) by (apply Z.div_pos; lia).
  assert (Hd2 : 0 <= y / 2) by (apply Z.div_pos; lia).
  assert (Hc : m = 0 \/ m = 1 \/ m = 2 \/ m = 3 \/ m = 4 \/ m = 5 \/ m = 6 \/ m = 7) by lia.
  unfold QrCode.maskInvert, maskPredicate, JS.rem, JS.floorDiv.
  destruct Hc as [->|[->|[->|[->|[->|[->|[->| ->]]]]]]];
    rewrite ?(Z.rem_mod_nonneg (x * y)) by lia;
    rewrite ?(Z.rem_mod_nonneg (x + y)) by lia;
    rewrite ?Z.rem_mod_nonneg by lia; reflexivity.
Qed.

Lemma maskedWhere_ext (m : Z) (qr0 : QrCode.t) (done done' : Z -> Z -> bool) (qr : QrCode.t) :
  (forall x y, 0 <= x < QrCode.size qr0 -> 0 <= y < QrCode.size qr0 -> done x y = done' x y) ->
  maskedWhere m qr0 done qr -> maskedWhere m qr0 done' qr.
Proof.
  intros He (Hf & Hsq & Hc). split; [exact Hf|]. split; [exact Hsq|].
  intros x y Hx Hy. rewrite <- (He x y Hx Hy). apply Hc; assumption.
Qed.

(** One iteration of the inner loop of [applyMask]. *)
Lemma applyMask_step (m : Z) (qr0 qr : QrCode.t) (x y : Z) :
  0 <= m <= 7 -> wellFormed qr0 ->
  0 <= x < QrCode.size qr0 -> 0 <= y < QrCode.size qr0 ->
  maskedWhere m qr0 (fun x' y' => (y' <? y) || ((y' =? y) && (x' <? x))) qr ->
  exists qr',
    (invert ← QrCode.maskInvert m x y;
     f ← QrCode.gridGet (QrCode.isFunction qr) x y;
     if negb f && invert then
       c ← QrCode.gridGet (QrCode.modules qr) x y;
       g ← QrCode.gridSet (QrCode.modules qr) x y (negb c);
       Ok (QrCode.withModules qr g)
     else Ok qr) = Ok qr' /\
    maskedWhere m qr0 (fun x' y' => (y' <? y) || ((y' =? y) && (x' <? x + 1))) qr'.
Proof.
  intros Hm (Hn & Hsq0 & Hsf0) Hx Hy (Hf & Hsq & Hc).
  destruct Hf as (Hv & He & Hs & Hk & Hfn).
  rewrite maskInvert_spec by lia. cbn [mbind res_bind].
  rewrite Hfn. rewrite (gridGet_square _ _ x y Hsf0) by assumption.
  cbn [mbind res_bind].
  pose proof (Hc x y Hx Hy) as Hxy.
  replace (y <? y) with false in Hxy by (symmetry; apply Z.ltb_irrefl).
  replace (x <? x) with false in Hxy by (symmetry; apply Z.ltb_irrefl).
  rewrite andb_false_r in Hxy. cbn [orb] in Hxy.
  destruct (negb (cell (QrCode.isFunction qr0) x y) && maskPredicate m x y) eqn:Hflip.
  - rewrite (gridGet_square _ _ x y Hsq) by assumption. cbn [mbind res_bind].
    destruct (gridSet_square _ _ x y (negb (cell (QrCode.modules qr) x y)) Hsq Hx Hy)
      as (g & Hg & Hsqg & Hcg).
    rewrite Hg. cbn [mbind res_bind]. eexists. split; [reflexivity|].
    split; [repeat split; assumption|]. split; [exact Hsqg|].
    intros x' y' Hx' Hy'. cbn [QrCode.withModules QrCode.modules].
    rewrite Hcg, (Hc x' y' Hx' Hy'), Hxy.
    zcases; subst; cbn [andb orb]; try lia; try reflexivity;
      unfold maskedCell; rewrite Hflip; destruct (cell (QrCode.modules qr0) x y); reflexivity.
  - eexists. split; [reflexivity|].
    split; [repeat split; assumption|]. split; [exact Hsq|].
    intros x' y' Hx' Hy'. rewrite (Hc x' y' Hx' Hy').
    zcases; subst; cbn [andb orb]; try lia; try reflexivity.
    assert (x' = x) by lia. subst x'.
    unfold maskedCell. rewrite Hflip. destruct (cell (QrCode.modules qr0) x y); reflexivity.
Qed.

(** One application of a mask inverts exactly the modules that are not
    function modules and satisfy the predicate of the mask. *)
Lemma applyMask_masks (m : Z) (qr0 : QrCode.t) :
  0 <= m <= 7 -> wellFormed qr0 ->
  exists qr1, QrCode.applyMask m qr0 = Ok qr1 /\ maskedWhere m qr0 (fun _ _ => true) qr1.
Proof.
  intros Hm Hwf. pose proof Hwf as (Hn & Hsq0 & Hsf0).
  unfold QrCode.applyMask. cmp.
  destruct (forM_seqZ_inv
              (fun y qr => QrCode.size qr = QrCode.size qr0 /\
                           maskedWhere m qr0 (fun x' y' => y' <? y) qr)
              (fun y => forM (seqZ 0 (QrCode.size qr0))
                          (fun x qr =>
                             invert ← QrCode.maskInvert m x y;
                             f ← QrCode.gridGet (QrCode.isFunction qr) x y;
                             if negb f && invert then
                               c ← QrCode.gridGet (QrCode.modules qr) x y;
                               g ← QrCode.gridSet (QrCode.modules qr) x y (negb c);
                               Ok (QrCode.withModules qr g)
                             else Ok qr))
              0 (QrCode.size qr0) Hn) with (s := qr0) as (qr1 & H1 & _ & HI1).
  - intros y qr Hy (Hsz & HI).
    destruct (forM_seqZ_inv
                (fun x qr => maskedWhere m qr0
                               (fun x' y' => (y' <? y) || ((y' =? y) && (x' <? x))) qr)
                (fun x qr =>
                   invert ← QrCode.maskInvert m x y;
                   f ← QrCode.gridGet (QrCode.isFunction qr) x y;
                   if negb f && invert then
                     c ← QrCode.gridGet (QrCode.modules qr) x y;
                     g ← QrCode.gridSet (QrCode.modules qr) x y (negb c);
                     Ok (QrCode.withModules qr g)
                   else Ok qr)
                0 (QrCode.size qr0) Hn) with (s := qr) as (qr' & H' & HI').
    + intros x t Hx Ht. apply applyMask_step; auto; lia.
    + eapply maskedWhere_ext; [|exact HI]. intros x' y' Hx' Hy'. cbn beta.
      replace (x' <? 0) with false by (symmetry; apply Z.ltb_ge; lia).
      rewrite andb_false_r, orb_false_r. reflexivity.
    + exists qr'. split; [exact H'|]. split; [apply HI'|].
      eapply maskedWhere_ext; [|exact HI']. intros x' y' Hx' Hy'. cbn beta.
      replace (x' <? 0 + QrCode.size qr0) with true by (symmetry; apply Z.ltb_lt; lia).
      rewrite andb_true_r.
      destruct (Z.ltb_spec y' y), (Z.eqb_spec y' y), (Z.ltb_spec y' (y + 1)); try lia; reflexivity.
  - split; [reflexivity|]. split; [repeat split; reflexivity|]. split; [exact Hsq0|].
    intros x y Hx Hy. replace (y <? 0) with false by (symmetry; apply Z.ltb_ge; lia).
    reflexivity.
  - exists qr1. split.
    + erewrite forM_ext; [exact H1|]. intros y t Hy. reflexivity.
    + eapply maskedWhere_ext; [|exact HI1]. intros x' y' Hx' Hy'. cbn beta.
      apply Z.ltb_lt. lia.
Qed.

Lemma maskedWhere_wellFormed (m : Z) (qr0 qr : QrCode.t) (done : Z -> Z -> bool) :
  wellFormed qr0 -> maskedWhere m qr0 done qr -> wellFormed qr.
Proof.
  intros (Hn & Hsq0 & Hsf0) ((Hv & He & Hs & Hk & Hfn) & Hsq & _).
  unfold wellFormed. rewrite Hs, Hfn. auto.
Qed.

(** C4. For every mask m in [0,7] and every symbol under construction whose
    module grid and function-marker grid have the size of the symbol: one
    application of the mask inverts exactly the modules that are not
    function modules and whose coordinates satisfy the predicate of mask m,
    it leaves the function-marker grid alone, and a second application
    gives back the symbol one started from. *)
Theorem applyMask_involution (m : Z) (qr : QrCode.t) :
  0 <= m <= 7 -> wellFormed qr ->
  exists qr1,
    QrCode.applyMask m qr = Ok qr1 /\
    QrCode.isFunction qr1 = QrCode.isFunction qr /\
    (forall x y, 0 <= x < QrCode.size qr -> 0 <= y < QrCode.size qr ->
       QrCode.gridGet (QrCode.modules qr1) x y
       = Ok (xorb (cell (QrCode.modules qr) x y)
                  (negb (cell (QrCode.isFunction qr) x y) && maskPredicate m x y))) /\
    QrCode.applyMask m qr1 = Ok qr.
Proof.
  intros Hm Hwf.
  destruct (applyMask_masks m qr Hm Hwf) as (qr1 & H1 & HI1).
  pose proof (maskedWhere_wellFormed _ _ _ _ Hwf HI1) as Hwf1.
  destruct (applyMask_masks m qr1 Hm Hwf1) as (qr2 & H2 & HI2).
  destruct HI1 as ((Hv1 & He1 & Hs1 & Hk1 & Hf1) & Hsq1 & Hc1).
  destruct HI2 as ((Hv2 & He2 & Hs2 & Hk2 & Hf2) & Hsq2 & Hc2).
  exists qr1. split; [exact H1|]. split; [exact Hf1|]. split.
  - intros x y Hx Hy. rewrite (gridGet_square _ _ x y Hsq1) by assumption.
    rewrite (Hc1 x y Hx Hy). reflexivity.
  - rewrite H2. f_equal.
    assert (Hmod : QrCode.modules qr2 = QrCode.modules qr).
    { destruct Hwf as (Hn & Hsq0 & Hsf0).
      apply (grid_ext (QrCode.size qr)); [rewrite <- Hs1; exact Hsq2|exact Hsq0|].
      intros x y Hx Hy. rewrite Hc2 by (rewrite Hs1; assumption).
      unfold maskedCell. rewrite Hf1. rewrite (Hc1 x y Hx Hy). unfold maskedCell.
      destruct (cell (QrCode.modules qr) x y),
        (negb (cell (QrCode.isFunction qr) x y) && maskPredicate m x y); reflexivity. }
    destruct qr2, qr. cbn in *. congruence.
Qed.

Lemma applyMask_involution_witness :
  let qr := QrCode.Build 1 QrEcc.LOW 3 0
              [[true; false; true]; [false; false; true]; [true; true; false]]
              [[true; false; false]; [false; false; false]; [false; false; true]] in
  wellFormed qr /\
  exists qr1,
    QrCode.applyMask 3 qr = Ok qr1 /\
    QrCode.isFunction qr1 = QrCode.isFunction qr /\
    (forall x y, 0 <= x < QrCode.size qr -> 0 <= y < QrCode.size qr ->
       QrCode.gridGet (QrCode.modules qr1) x y
       = Ok (xorb (cell (QrCode.modules qr) x y)
                  (negb (cell (QrCode.isFunction qr) x y) && maskPredicate 3 x y))) /\
    QrCode.applyMask 3 qr1 = Ok qr.
Proof.
  assert (Hwf : wellFormed
                  (QrCode.Build 1 QrEcc.LOW 3 0
                     [[true; false; true]; [false; false; true]; [true; true; false]]
                     [[true; false; false]; [false; false; false]; [false; false; true]])).
  { unfold wellFormed, square. cbn. repeat split; try lia; repeat constructor. }
  split; [exact Hwf|].
  apply (applyMask_involution 3 _ ltac:(lia) Hwf).
Defined.

End Masking.

(** ** Reed-Solomon codes *)

Section ReedSolomon.

Lemma fold_left_inv {A B : Type} (P : A -> Prop) (f : A -> B -> A) (l : list B) (a : A) :
  P a -> (forall a b, b ∈ l -> P a -> P (f a b)) -> P (fold_left f l a).
Proof.
  revert a. induction l as [|b l IH]; intros a Ha Hstep; simpl; [exact Ha|].
  apply IH; [apply Hstep; [left|exact Ha]|].
  intros a' b' Hb'. apply Hstep. right. exact Hb'.
Qed.

Lemma gfDouble_byte (z : Z) : isByte z -> isByte (gfDouble z).
Proof.
  intros Hz.
  assert (Hall : forallb gfDoubleCheck (seqZ 0 256) = true) by (vm_compute; reflexivity).
  rewrite forallb_forall in Hall.
  specialize (Hall z). unfold gfDoubleCheck in Hall.
  rewrite andb_true_iff, Z.leb_le, Z.ltb_lt in Hall. apply Hall.
  apply list_elem_of_In, elem_of_seqZ. unfold isByte in Hz. lia.
Qed.

Lemma ushr_8_byte (x : Z) : isByte x -> JS.ushr x 8 = 0.
Proof.
  unfold isByte. intros Hx. rewrite ushr_small by lia.
  rewrite Z.shiftr_div_pow2 by lia. apply Z.div_small. change (2 ^ 8) with 256. lia.
Qed.

Lemma reedSolomonMultiply_byte (x y : Z) :
  isByte x -> isByte y -> exists z, QrCode.reedSolomonMultiply x y = Ok z /\ isByte z.
Proof.
  intros Hx Hy. unfold QrCode.reedSolomonMultiply.
  rewrite (ushr_8_byte x Hx), (ushr_8_byte y Hy). cbn [Z.eqb negb orb].
  match goal with |- context [fold_left ?f ?l ?a] => set (z := fold_left f l a) end.
  assert (Hz : isByte z).
  { unfold z. apply fold_left_inv; [unfold isByte; lia|].
    intros a i Hi Ha. apply elem_of_reverse, elem_of_seqZ in Hi.
    apply xor_byte; [apply gfDouble_byte; exact Ha|].
    unfold isByte in Hy. rewrite bit_of_ushr by lia.
    destruct (Z.testbit y i); cbn [Z.b2z]; [rewrite Z.mul_1_l; exact Hx|unfold isByte; lia]. }
  rewrite (ushr_8_byte z Hz). cbn. exists z. split; [reflexivity|exact Hz].
Qed.

Lemma reedSolomonComputeDivisor_bytes (degree : Z) :
  1 <= degree <= 255 ->
  exists div, QrCode.reedSolomonComputeDivisor degree = Ok div /\
              Z.of_nat (length div) = degree /\ Forall isByte div.
Proof.
  intros Hd. unfold QrCode.reedSolomonComputeDivisor. cmp.
  set (I := fun rr : list Z * Z =>
              Z.of_nat (length rr.1) = degree /\ Forall isByte rr.1 /\ isByte rr.2).
  match goal with
  | |- context [forM ?l0 ?f0 ?s0] =>
      destruct (forM_inv I l0 f0) with (s := s0) as (rr & Hrr & HI)
  end.
  - intros _ [result root] _ (Hlen & Hb & Hroot). cbn [fst snd] in *.
    destruct (forM_inv (fun r : list Z => Z.of_nat (length r) = degree /\ Forall isByte r)
                (seqZ 0 (Z.of_nat (length result)))
                (fun j result0 =>
                   rj ← lookupZ result0 j;
                   v ← QrCode.reedSolomonMultiply rj root;
                   v0 ← (if j + 1 <? Z.of_nat (length result0)
                         then r1 ← lookupZ result0 (j + 1); Ok (JS.xor v r1)
                         else Ok v);
                   updateZ result0 j v0)) with (s := result) as (r' & Hr' & Hlen' & Hb').
    + intros j r Hj (Hl & Hbr). apply elem_of_seqZ in Hj.
      destruct (lookupZ_in_range r j) as (rj & Hrj); [lia|].
      rewrite Hrj. cbn [mbind res_bind].
      assert (Hrjb : isByte rj).
      { apply lookupZ_Ok in Hrj. destruct Hrj as [_ Hrj].
        rewrite Forall_lookup in Hbr. exact (Hbr _ _ Hrj). }
      destruct (reedSolomonMultiply_byte rj root Hrjb Hroot) as (m & Hm & Hmb).
      rewrite Hm. cbn [mbind res_bind].
      assert (Hv : exists v0,
                 (if j + 1 <? Z.of_nat (length r)
                  then r1 ← lookupZ r (j + 1); Ok (JS.xor m r1) else Ok m) = Ok v0
                 /\ isByte v0).
      { destruct (Z.ltb_spec (j + 1) (Z.of_nat (length r))).
        - destruct (lookupZ_in_range r (j + 1)) as (r1 & Hr1); [lia|].
          rewrite Hr1. cbn [mbind res_bind]. eexists. split; [reflexivity|].
          apply xor_byte; [exact Hmb|].
          apply lookupZ_Ok in Hr1. destruct Hr1 as [_ Hr1].
          rewrite Forall_lookup in Hbr. exact (Hbr _ _ Hr1).
        - exists m. split; [reflexivity|exact Hmb]. }
      destruct Hv as (v0 & Hv0 & Hv0b). rewrite Hv0. cbn [mbind res_bind].
      exists (<[Z.to_nat j := v0]> r). split; [apply updateZ_Ok; split; [lia|reflexivity]|].
      split; [rewrite length_insert; exact Hl|].
      apply Forall_insert; assumption.
    + split; assumption.
    + rewrite Hr'. cbn [mbind res_bind].
      destruct (reedSolomonMultiply_byte root 2 Hroot ltac:(unfold isByte; lia))
        as (root' & Hroot' & Hrb).
      rewrite Hroot'. cbn [mbind res_bind]. eexists. split; [reflexivity|].
      unfold I. cbn [fst snd]. auto.
  - unfold I. cbn [fst snd]. rewrite length_app, length_replicate. cbn [length].
    split; [lia|]. split; [|unfold isByte; lia].
    apply Forall_app. split; [apply Forall_replicate; unfold isByte; lia|].
    constructor; [unfold isByte; lia|constructor].
  - rewrite Hrr. cbn [mbind res_bind]. exists rr.1. destruct HI as (H1 & H2 & _). auto.
Qed.

Lemma reedSolomonComputeRemainder_bytes (data divisor : list Z) :
  Forall isByte data -> Forall isByte divisor -> (1 <= length divisor)%nat ->
  exists ecc, QrCode.reedSolomonComputeRemainder data divisor = Ok ecc /\
              length ecc = length divisor /\ Forall isByte ecc.
Proof.
  intros Hdata Hdiv Hlen. unfold QrCode.reedSolomonComputeRemainder.
  apply (forM_inv (fun r : list Z => length r = length divisor /\ Forall isByte r)).
  - intros b result Hb (Hl & Hr).
    rewrite Forall_forall in Hdata. specialize (Hdata b Hb).
    set (factor := JS.xor b (default 0 (head result))).
    assert (Hf : isByte factor).
    { apply xor_byte; [exact Hdata|].
      destruct result as [|r0 result]; cbn; [unfold isByte; lia|].
      apply Forall_cons in Hr. apply Hr. }
    assert (Hl' : length (tail result ++ [0]) = length divisor).
    { rewrite length_app. destruct result; cbn in *; lia. }
    assert (Hr' : Forall isByte (tail result ++ [0])).
    { apply Forall_app. split; [apply Forall_tail; exact Hr|].
      constructor; [unfold isByte; lia|constructor]. }
    generalize dependent (tail result ++ [0]). intros result' Hl' Hr'.
    destruct (forEachM_inv
                (fun (_ : Z) (r : list Z) => length r = length divisor /\ Forall isByte r)
                (fun coef i result0 =>
                   ri ← lookupZ result0 i;
                   m ← QrCode.reedSolomonMultiply coef factor;
                   updateZ result0 i (JS.xor ri m))
                divisor) with (s := result') as (r2 & H2 & HI2).
    + intros j coef r Hj Hcoef (Hlr & Hbr).
      destruct (lookupZ_in_range r j) as (ri & Hri); [lia|].
      rewrite Hri. cbn [mbind res_bind].
      assert (Hcb : isByte coef) by (rewrite Forall_lookup in Hdiv; exact (Hdiv _ _ Hcoef)).
      destruct (reedSolomonMultiply_byte coef factor Hcb Hf) as (m & Hm & Hmb).
      rewrite Hm. cbn [mbind res_bind].
      exists (<[Z.to_nat j := JS.xor ri m]> r).
      split; [apply updateZ_Ok; split; [lia|reflexivity]|].
      split; [rewrite length_insert; exact Hlr|].
      apply Forall_insert; [exact Hbr|]. apply xor_byte; [|exact Hmb].
      apply lookupZ_Ok in Hri. destruct Hri as [_ Hri].
      rewrite Forall_lookup in Hbr. exact (Hbr _ _ Hri).
    + split; assumption.
    + exists r2. split; [exact H2|exact HI2].
  - split; [apply length_map|]. apply Forall_forall. intros z Hz.
    apply list_elem_of_fmap in Hz. destruct Hz as (? & -> & _). unfold isByte. lia.
Qed.

End ReedSolomon.

(** ** Blocks, error correction codewords and interleaving *)

Section Interleave.

Lemma slice_length {A : Type} (l : list A) (a b : Z) :
  0 <= a <= b -> b <= Z.of_nat (length l) -> Z.of_nat (length (JS.slice l a b)) = b - a.
Proof.
  intros Hab Hb. unfold JS.slice. cmp.
  rewrite !Z.min_l by lia. rewrite length_take, length_drop. lia.
Qed.

Lemma slice_Forall {A : Type} (P : A -> Prop) (l : list A) (a b : Z) :
  Forall P l -> Forall P (JS.slice l a b).
Proof. intros H. unfold JS.slice. apply Forall_take, Forall_drop, H. Qed.

Lemma addEccAndInterleave_wrong_length (qr : QrCode.t) (data : list Z) (n : Z) :
  QrCode.getNumDataCodewords (QrCode.version qr) (QrCode.errorCorrectionLevel qr) = Ok n ->
  Z.of_nat (length data) <> n ->
  QrCode.addEccAndInterleave qr data = Err (RangeError "Invalid argument").
Proof.
  intros Hn Hlen. unfold QrCode.addEccAndInterleave. rewrite Hn. cbn [mbind res_bind].
  cmp. reflexivity.
Qed.

Lemma addEccAndInterleave_total (qr : QrCode.t) (data : list Z) (raw e nb : Z) :
  QrCode.getNumRawDataModules (QrCode.version qr) = Ok raw ->
  QrCode.tableAt QrCode.ECC_CODEWORDS_PER_BLOCK (QrCode.errorCorrectionLevel qr)
                 (QrCode.version qr) = Ok e ->
  QrCode.tableAt QrCode.NUM_ERROR_CORRECTION_BLOCKS (QrCode.errorCorrectionLevel qr)
                 (QrCode.version qr) = Ok nb ->
  QrCode.getNumDataCodewords (QrCode.version qr) (QrCode.errorCorrectionLevel qr)
  = Ok (raw / 8 - e * nb) ->
  0 <= raw -> 1 <= nb -> 1 <= e <= 30 -> e < raw / 8 / nb ->
  Z.of_nat (length data) = raw / 8 - e * nb -> Forall isByte data ->
  exists out, QrCode.addEccAndInterleave qr data = Ok out /\
              Z.of_nat (length out) = raw / 8 /\ Forall isByte out.
Proof.
  intros Hraw He Hnb Hn Hraw0 Hnb1 He1 Hes Hlen Hbytes.
  unfold QrCode.addEccAndInterleave.
  rewrite Hn. cbn [mbind res_bind]. cmp.
  rewrite Hnb. cbn [mbind res_bind]. rewrite He. cbn [mbind res_bind].
  rewrite Hraw. cbn [mbind res_bind]. unfold JS.floorDiv, JS.rem.
  set (rc := raw / 8) in *.
  assert (Hrc0 : 0 <= rc) by (apply Z.div_pos; lia).
  rewrite Z.rem_mod_nonneg by lia.
  set (r := rc mod nb). set (s := rc / nb) in *.
  assert (Hr : 0 <= r < nb) by (apply Z.mod_pos_bound; lia).
  assert (Hdm : rc = nb * s + r) by (apply Z.div_mod; lia).
  destruct (reedSolomonComputeDivisor_bytes e ltac:(lia)) as (rsDiv & Hdiv & Hdl & Hdb).
  rewrite Hdiv. cbn [mbind res_bind].
  (* the blocks *)
  set (blockOk := fun b : list Z => Z.of_nat (length b) = s + 1 /\ Forall isByte b).
  match goal with
  | |- context [forM (seqZ 0 nb) ?f0 ?s0] =>
      destruct (forM_seqZ_inv
                  (fun i (kb : Z * list (list Z)) =>
                     kb.1 = i * (s - e) + Z.max 0 (i - (nb - r)) /\
                     Z.of_nat (length kb.2) = i /\ Forall blockOk kb.2)
                  f0 0 nb ltac:(lia)) with (s := s0) as (kb & Hkb & HIkb)
  end.
  { intros i [k blocks] Hi (Hk & Hbl & Hbs). cbn [fst snd] in Hk, Hbl, Hbs.
    cbv zeta.
    set (delta := if i <? nb - r then 0 else 1).
    assert (Hdelta : delta = 0 /\ i < nb - r \/ delta = 1 /\ nb - r <= i).
    { unfold delta. destruct (Z.ltb_spec i (nb - r)); [left|right]; lia. }
    assert (Hk0 : 0 <= k) by nia.
    assert (Hend : k + (s - e + delta) <= rc - e * nb) by nia.
    assert (Hsl : Z.of_nat (length (JS.slice data k (k + s - e + delta))) = s - e + delta).
    { rewrite slice_length; lia. }
    assert (Hsb : Forall isByte (JS.slice data k (k + s - e + delta)))
      by (apply slice_Forall; exact Hbytes).
    destruct (reedSolomonComputeRemainder_bytes _ rsDiv Hsb Hdb ltac:(lia))
      as (ecc & Hecc & Hel & Heb).
    rewrite Hecc. cbn [mbind res_bind]. eexists. split; [reflexivity|]. cbn [fst snd].
    split; [rewrite Hsl; lia|].
    split; [rewrite length_app; cbn [length]; lia|].
    apply Forall_app. split; [exact Hbs|]. constructor; [|constructor].
    unfold blockOk. destruct (Z.ltb_spec i (nb - r)).
    - split; [rewrite !length_app; cbn [length]; lia|].
      apply Forall_app. split; [apply Forall_app; split; [exact Hsb|]|exact Heb].
      constructor; [unfold isByte; lia|constructor].
    - split; [rewrite !length_app; lia|]. apply Forall_app. split; assumption. }
  { cbn [fst snd length]. split; [lia|]. split; [reflexivity|constructor]. }
  rewrite Hkb. cbn [mbind res_bind].
  destruct kb as [k blocks]. cbn [fst snd] in HIkb |- *.
  destruct HIkb as (_ & Hbl & Hbs). rewrite Z.add_0_l in Hbl.
  destruct (lookupZ_in_range blocks 0) as (block0 & Hb0); [lia|].
  rewrite Hb0. cbn [mbind res_bind].
  assert (Hl0 : Z.of_nat (length block0) = s + 1).
  { apply lookupZ_Ok in Hb0. destruct Hb0 as [_ Hb0].
    rewrite Forall_lookup in Hbs. apply (Hbs _ _ Hb0). }
  rewrite Hl0.
  (* the interleaving *)
  match goal with
  | |- context [forM (seqZ 0 (s + 1)) ?f0 ?s0] =>
      destruct (forM_seqZ_inv
                  (fun i (result : list Z) =>
                     Z.of_nat (length result)
                     = i * nb - (if s - e <? i then nb - r else 0) /\
                     Forall isByte result)
                  f0 0 (s + 1) ltac:(lia)) with (s := s0) as (out & Hout & Hol & Hob)
  end.
  { intros i result Hi (Hrl & Hrb).
    cbv beta.
    match goal with
    | |- context [forEachM blocks ?f0 result] =>
        destruct (forEachM_inv
                    (fun j (res0 : list Z) =>
                       Z.of_nat (length res0)
                       = Z.of_nat (length result)
                         + (if i =? s - e then Z.max 0 (j - (nb - r)) else j) /\
                       Forall isByte res0)
                    f0 blocks) with (s := result) as (res1 & H1 & Hl1 & Hb1)
    end.
    - intros j block res0 Hj Hblock (Hl & Hb).
      rewrite Forall_lookup in Hbs. destruct (Hbs _ _ Hblock) as (Hbll & Hblb).
      destruct (negb (i =? s - e) || (j >=? nb - r)) eqn:Hc.
      + destruct (lookupZ_in_range block i) as (b & Hbi); [lia|].
        rewrite Hbi. cbn [mbind res_bind]. eexists. split; [reflexivity|].
        split.
        * rewrite length_app. cbn [length]. rewrite Nat2Z.inj_add, Hl.
          rewrite Z.geb_leb in Hc.
          destruct (Z.eqb_spec i (s - e)), (Z.leb_spec (nb - r) j); cbn in Hc;
            try discriminate; lia.
        * apply Forall_app. split; [exact Hb|]. constructor; [|constructor].
          apply lookupZ_Ok in Hbi. destruct Hbi as [_ Hbi].
          rewrite Forall_lookup in Hblb. exact (Hblb _ _ Hbi).
      + eexists. split; [reflexivity|]. split; [|exact Hb]. rewrite Hl.
        rewrite Z.geb_leb in Hc.
        destruct (Z.eqb_spec i (s - e)), (Z.leb_spec (nb - r) j); cbn in Hc;
          try discriminate; lia.
    - split; [|exact Hrb]. destruct (i =? s - e); lia.
    - exists res1. split; [exact H1|]. split; [|exact Hb1].
      rewrite Hl1, Hrl, Hbl.
      destruct (Z.eqb_spec i (s - e)), (Z.ltb_spec (s - e) i), (Z.ltb_spec (s - e) (i + 1));
        try lia; nia. }
  { cbn [length]. split; [|constructor]. destruct (Z.ltb_spec (s - e) 0); lia. }
  rewrite Hout. cbn [mbind res_bind].
  assert (Hfinal : Z.of_nat (length out) = rc).
  { rewrite Hol. replace (s - e <? 0 + (s + 1)) with true by (symmetry; apply Z.ltb_lt; lia).
    nia. }
  unfold QrCodeUtil.assert. rewrite Hfinal, Z.eqb_refl. cbn [mbind res_bind].
  exists out. auto.
Qed.

End Interleave.

(** ** What the steps of the constructor keep *)

Section Frame.

Lemma square_blank (n : Z) :
  square n (replicate (Z.to_nat n) (replicate (Z.to_nat n) false)).
Proof.
  split; [apply length_replicate|].
  apply Forall_replicate. apply length_replicate.
Qed.

Lemma setFunctionModule_frame {v e n} (x y : Z) (b : bool) (qr qr' : QrCode.t) :
  QrCode.setFunctionModule x y b qr = Ok qr' -> frameInv v e n qr -> frameInv v e n qr'.
Proof.
  unfold QrCode.setFunctionModule. intros H (Hv & He & Hs & Hm & Hf).
  inv_bind H. inv_bind H. injection H as <-.
  repeat split; cbn; auto; eapply gridSet_shape; eauto.
Qed.

Lemma setFunctionModule_in_range {v e n} (x y : Z) (b : bool) (qr qr' : QrCode.t) :
  QrCode.setFunctionModule x y b qr = Ok qr' -> frameInv v e n qr -> 0 <= x < n /\ 0 <= y < n.
Proof.
  unfold QrCode.setFunctionModule. intros H (Hv & He & Hs & Hm & Hf).
  inv_bind H. eapply gridSet_in_range; eauto.
Qed.

Lemma forM_frame {A : Type} {v e n} (l : list A) (f : A -> QrCode.t -> res QrCode.t) :
  (forall a qr qr', f a qr = Ok qr' -> frameInv v e n qr -> frameInv v e n qr') ->
  forall qr qr', forM l f qr = Ok qr' -> frameInv v e n qr -> frameInv v e n qr'.
Proof.
  intros Hstep qr qr' H HI.
  apply (forM_preserves (frameInv v e n) l f) with (s := qr); auto.
  intros a s s' _ Hs Hf. exact (Hstep a s s' Hf Hs).
Qed.

End Frame.

(** [frame] proves that a symbol keeps the invariant [frameInv] from the
    hypotheses that say how it was produced; [frame_hook] holds the lemmas
    of the functions proved so far. *)
Ltac frame_via lem := eapply lem; [eassumption|].
Ltac frame_hook := fail.
Ltac frame :=
  first
    [ assumption
    | match goal with
      | H : Ok ?q0 = Ok ?q |- frameInv _ _ _ ?q => injection H as <-; frame
      | H : QrCode.setFunctionModule _ _ _ ?q0 = Ok ?q |- frameInv _ _ _ ?q =>
          apply (setFunctionModule_frame _ _ _ _ _ H); frame
      | H : forM _ _ ?q0 = Ok ?q |- frameInv _ _ _ ?q =>
          eapply forM_frame; [|exact H|frame];
          let Hs := fresh "Hs" in
          intros ? ? ? Hs ?; cbv beta zeta in Hs; frame
      | H : (if ?c then _ else _) = Ok ?q |- frameInv _ _ _ ?q => destruct c; frame
      | H : mbind _ _ = Ok ?q |- frameInv _ _ _ ?q => inv_bind H; frame
      | |- frameInv _ _ _ _ => frame_hook; frame
      end ].

Section FrameOfDrawing.

Context {v : Z} {e : QrEcc.t} {n : Z}.

Lemma drawFormatBits_frame (mask : Z) (qr qr' : QrCode.t) :
  QrCode.drawFormatBits mask qr = Ok qr' -> frameInv v e n qr -> frameInv v e n qr'.
Proof. unfold QrCode.drawFormatBits. intros H HI. cbv zeta in H. frame. Qed.

Lemma drawVersion_frame (qr qr' : QrCode.t) :
  QrCode.drawVersion qr = Ok qr' -> frameInv v e n qr -> frameInv v e n qr'.
Proof. unfold QrCode.drawVersion. intros H HI. cbv zeta in H. frame. Qed.

Lemma drawFinderPattern_frame (x y : Z) (qr qr' : QrCode.t) :
  QrCode.drawFinderPattern x y qr = Ok qr' -> frameInv v e n qr -> frameInv v e n qr'.
Proof. unfold QrCode.drawFinderPattern. intros H HI. frame. Qed.

Lemma drawAlignmentPattern_frame (x y : Z) (qr qr' : QrCode.t) :
  QrCode.drawAlignmentPattern x y qr = Ok qr' -> frameInv v e n qr -> frameInv v e n qr'.
Proof. unfold QrCode.drawAlignmentPattern. intros H HI. frame. Qed.

End FrameOfDrawing.

Ltac frame_hook ::=
  first [ frame_via @drawFormatBits_frame | frame_via @drawVersion_frame
        | frame_via @drawFinderPattern_frame | frame_via @drawAlignmentPattern_frame ].

Section FrameOfConstruction.

Context {v : Z} {e : QrEcc.t} {n : Z}.

Lemma drawFunctionPatterns_frame (qr qr' : QrCode.t) :
  QrCode.drawFunctionPatterns qr = Ok qr' -> frameInv v e n qr -> frameInv v e n qr'.
Proof. unfold QrCode.drawFunctionPatterns. intros H HI. cbv zeta in H. frame. Qed.

Lemma drawCodewords_frame (data : list Z) (qr qr' : QrCode.t) :
  QrCode.drawCodewords data qr = Ok qr' -> frameInv v e n qr -> frameInv v e n qr'.
Proof.
  unfold QrCode.drawCodewords. intros H (Hv & He & Hs & Hm & Hf).
  inv_bind H. destruct (negb _); [discriminate|].
  inv_bind H. inv_bind H. injection H as <-.
  assert (Hsq : square n a0.2.1).
  { revert Ha0. apply (while_preserves (fun s => square n s.2.1)); [|exact Hm].
    intros s s' HI _ Hb. inv_bind Hb. injection Hb as <-. cbn [fst snd].
    revert Ha0. apply (forM_preserves (fun mi => square n mi.1)); [|exact HI].
    intros vert mi mi' _ HI1. apply (forM_preserves (fun mi => square n mi.1)); [|exact HI1].
    intros j [m i] mi2 _ HI2 Hj. cbn [fst] in HI2.
    inv_bind Hj. destruct (negb a3 && _).
    - inv_bind Hj. inv_bind Hj. injection Hj as <-. cbn [fst].
      eapply gridSet_shape; eauto.
    - injection Hj as <-. exact HI2. }
  split; [|split; [|split; [|split]]]; cbn; assumption.
Qed.

Lemma applyMask_frame (mask : Z) (qr qr' : QrCode.t) :
  QrCode.applyMask mask qr = Ok qr' -> frameInv v e n qr -> frameInv v e n qr'.
Proof.
  unfold QrCode.applyMask. intros H HI.
  destruct (_ || _); [discriminate|].
  eapply forM_frame; [|exact H|exact HI].
  intros y s s' Hs HIs. eapply forM_frame; [|exact Hs|exact HIs].
  clear. intros x s s' Hs (Hv & He & Hsz & Hm & Hf). cbv beta in Hs.
  inv_bind Hs. inv_bind Hs. destruct (negb a0 && a).
  - inv_bind Hs. inv_bind Hs. injection Hs as <-.
    split; [|split; [|split; [|split]]]; cbn; try assumption.
    eapply gridSet_shape; eauto.
  - injection Hs as <-. split; [|split; [|split; [|split]]]; assumption.
Qed.

End FrameOfConstruction.

Ltac frame_hook ::=
  first [ frame_via @drawFormatBits_frame | frame_via @drawVersion_frame
        | frame_via @drawFinderPattern_frame | frame_via @drawAlignmentPattern_frame
        | frame_via @drawFunctionPatterns_frame | frame_via @drawCodewords_frame
        | frame_via @applyMask_frame ].

(** ** The constructed symbol *)

Section Constructed.

Lemma initial_frame (v : Z) (e : QrEcc.t) (msk : Z) :
  frameInv v e (v * 4 + 17) (QrCode.initial v e msk).
Proof.
  unfold QrCode.initial. split; [reflexivity|]. split; [reflexivity|]. split; [reflexivity|].
  cbn [QrCode.modules QrCode.isFunction]. split; apply square_blank.
Qed.

(** Whatever the constructor returns has the version and the level it was
    given, the size of that version, a mask in [0,7] (the one given, unless
    -1 asked for the automatic choice), and a square grid of modules. *)
Lemma new_frame (v : Z) (e : QrEcc.t) (d : list Z) (msk : Z) (qr : QrCode.t) :
  QrCode.new v e d msk = Ok qr ->
  1 <= v <= 40 /\ -1 <= msk <= 7 /\
  QrCode.version qr = v /\ QrCode.errorCorrectionLevel qr = e /\
  QrCode.size qr = v * 4 + 17 /\
  0 <= QrCode.mask qr <= 7 /\ (msk <> -1 -> QrCode.mask qr = msk) /\
  square (QrCode.size qr) (QrCode.modules qr) /\ QrCode.isFunction qr = [].
Proof.
  unfold QrCode.new, QrCode.MIN_VERSION, QrCode.MAX_VERSION. intros H.
  destruct (Z.ltb_spec v 1); [discriminate|].
  destruct (Z.ltb_spec 40 v) as [Hgt|Hle];
    [rewrite Z.gtb_ltb in H; apply Z.ltb_lt in Hgt; rewrite Hgt in H; discriminate|].
  rewrite Z.gtb_ltb in H. replace (40 <? v) with false in H by (symmetry; apply Z.ltb_ge; lia).
  cbn [orb] in H.
  destruct (Z.ltb_spec msk (-1)); [discriminate|].
  rewrite Z.gtb_ltb in H. destruct (Z.ltb_spec 7 msk); [discriminate|].
  cbn [orb] in H. cbv zeta in H.
  pose proof (initial_frame v e msk) as HI0.
  bind_inv H as q1 Hq1. bind_inv H as all Hall. bind_inv H as q2 Hq2. bind_inv H as mq Hmq.
  destruct mq as [msk' q3].
  bind_inv H as u Hu. bind_inv H as q4 Hq4. bind_inv H as q5 Hq5. injection H as <-.
  assert (HI2 : frameInv v e (v * 4 + 17) q2) by frame.
  assert (HI3 : frameInv v e (v * 4 + 17) q3 /\ (msk <> -1 -> msk' = msk)).
  { destruct (Z.eqb_spec msk (-1)) as [Hm|Hm].
    - split; [|intros; contradiction].
      bind_inv Hmq as r Hr. injection Hmq as <- <-.
      revert Hr.
      apply (forM_preserves (fun s => frameInv v e (v * 4 + 17) s.2)); [|exact HI2].
      intros i [[m p] q] s' _ HIq Hs. cbn [snd] in HIq.
      bind_inv Hs as t1 Ht1. bind_inv Hs as t2 Ht2. bind_inv Hs as pen Hpen.
      destruct (pen <? p); bind_inv Hs as t3 Ht3; injection Hs as <-; cbn [snd]; frame.
    - injection Hmq as <- <-. split; [exact HI2|auto]. }
  destruct HI3 as [HI3 Hmsk].
  assert (HI5 : frameInv v e (v * 4 + 17) q5) by frame.
  destruct HI5 as (Hv & He & Hs & Hm & Hf).
  unfold QrCodeUtil.assert in Hu.
  destruct (Z.leb_spec 0 msk'); [|discriminate].
  destruct (Z.leb_spec msk' 7); [|discriminate].
  cbn. rewrite Hs. destruct Hm as [Hm1 Hm2]. repeat split; auto; lia.
Qed.

(** C8. For every symbol that the constructor returns and every pair of
    integers (x, y): when x or y lies outside [0, size), getModule(x, y)
    returns false and does not fail; when both lie inside, it returns
    the colour stored at row y, column x of the module grid. *)
Theorem getModule_total (v : Z) (e : QrEcc.t) (d : list Z) (msk : Z) (qr : QrCode.t) (x y : Z) :
  QrCode.new v e d msk = Ok qr ->
  ((x < 0 \/ QrCode.size qr <= x \/ y < 0 \/ QrCode.size qr <= y) ->
   QrCode.getModule qr x y = Ok false) /\
  (0 <= x < QrCode.size qr /\ 0 <= y < QrCode.size qr ->
   exists row b,
     QrCode.modules qr !! Z.to_nat y = Some row /\ row !! Z.to_nat x = Some b /\
     QrCode.getModule qr x y = Ok b).
Proof.
  intros H. apply new_frame in H.
  destruct H as (_ & _ & _ & _ & _ & _ & _ & Hsq & _).
  unfold QrCode.getModule. split.
  - intros Hout.
    destruct (Z.leb_spec 0 x), (Z.ltb_spec x (QrCode.size qr)),
      (Z.leb_spec 0 y), (Z.ltb_spec y (QrCode.size qr)); cbn [andb]; try reflexivity; lia.
  - intros [Hx Hy]. cmp.
    pose proof (gridGet_square _ _ x y Hsq Hx Hy) as Hg.
    pose proof Hg as Hg'. apply gridGet_Ok in Hg'.
    destruct Hg' as (row & _ & Hrow & _ & Hb).
    exists row, (cell (QrCode.modules qr) x y). auto.
Qed.

End Constructed.

(** ** The function markers do not depend on the level *)

(** Drawing the function patterns marks the same modules whatever the
    colours drawn: a run from one symbol is followed, step by step, from any
    symbol with the same version, size and markers. *)

Section Marks.

Context {n : Z}.

Lemma marks_size_l (q q' : QrCode.t) : sameMarks n q q' -> QrCode.size q = n.
Proof. intros H. apply H. Qed.

Lemma marks_size_r (q q' : QrCode.t) : sameMarks n q q' -> QrCode.size q' = n.
Proof. intros H. apply H. Qed.

Lemma marks_version (q q' : QrCode.t) : sameMarks n q q' -> QrCode.version q' = QrCode.version q.
Proof. intros H. apply H. Qed.

Lemma marks_set (x y : Z) (b b' : bool) (q q' r : QrCode.t) :
  sameMarks n q q' -> QrCode.setFunctionModule x y b q = Ok r ->
  exists r', QrCode.setFunctionModule x y b' q' = Ok r' /\ sameMarks n r r'.
Proof.
  intros (Hv & Hs & Hs' & Hf & Hsf & Hsm) H. unfold QrCode.setFunctionModule in *.
  bind_inv H as m Hm. bind_inv H as f Hf'. injection H as <-.
  destruct (gridSet_in_range _ _ _ _ _ _ Hf' Hsf) as [Hx Hy].
  destruct (gridSet_square _ _ x y b' Hsm Hx Hy) as (m' & Hm' & Hsm' & _).
  step Hm'. rewrite Hf. step Hf'. eexists. split; [reflexivity|].
  unfold sameMarks. cbn. repeat split; auto; try apply (gridSet_shape _ _ _ _ _ _ Hf' Hsf).
  - apply Hsm'.
  - apply Hsm'.
Qed.

Lemma marks_forM {A : Type} (l : list A) (f g : A -> QrCode.t -> res QrCode.t) :
  (forall a q q' r, sameMarks n q q' -> f a q = Ok r ->
                    exists r', g a q' = Ok r' /\ sameMarks n r r') ->
  forall q q' r, sameMarks n q q' -> forM l f q = Ok r ->
                 exists r', forM l g q' = Ok r' /\ sameMarks n r r'.
Proof.
  intros Hstep. induction l as [|a l IH]; intros q q' r HR H.
  - injection H as <-. exists q'. split; [reflexivity|exact HR].
  - cbn [forM] in H |- *. bind_inv H as q1 Hq1.
    destruct (Hstep a q q' q1 HR Hq1) as (q1' & Hq1' & HR1).
    step Hq1'. exact (IH q1 q1' r HR1 H).
Qed.

Lemma marks_bind (m m' : res QrCode.t) (k k' : QrCode.t -> res QrCode.t) (r : QrCode.t) :
  mbind k m = Ok r ->
  (forall a, m = Ok a -> exists a', m' = Ok a' /\ sameMarks n a a') ->
  (forall a a', sameMarks n a a' -> k a = Ok r -> exists r', k' a' = Ok r' /\ sameMarks n r r') ->
  exists r', mbind k' m' = Ok r' /\ sameMarks n r r'.
Proof.
  intros H Hm Hk. bind_inv H as a Ha.
  destruct (Hm a Ha) as (a' & Ha' & HR). step Ha'. exact (Hk a a' HR H).
Qed.

End Marks.

(** [marks H HR] follows the run [H] from a symbol related by [HR]. *)
Ltac marks_hook H HR := fail.
Ltac marks_pre HR := idtac.
Ltac marks H HR :=
  rewrite ?(marks_size_l _ _ HR) in H;
  rewrite ?(marks_size_r _ _ HR), ?(marks_version _ _ HR);
  marks_pre HR;
  lazymatch goal with
  | |- exists r', Ok _ = Ok r' /\ _ =>
      injection H as <-; eexists; split; [reflexivity|exact HR]
  | |- exists r', QrCode.setFunctionModule _ _ _ _ = Ok r' /\ _ =>
      exact (marks_set _ _ _ _ _ _ _ HR H)
  | |- exists r', forM _ _ _ = Ok r' /\ _ =>
      eapply marks_forM; [|exact HR|exact H];
      let a := fresh "a" in
      let q := fresh "q" in
      let q' := fresh "q'" in
      let r := fresh "r" in
      let HRs := fresh "HR" in
      let Hs := fresh "Hs" in
      intros a q q' r HRs Hs; cbv beta in Hs |- *; marks Hs HRs
  | |- exists r', (if ?c then _ else _) = Ok r' /\ _ =>
      let Hc := fresh "Hc" in
      destruct c eqn:Hc; rewrite ?Hc in H; marks H HR
  | |- exists r', mbind _ _ = Ok r' /\ _ =>
      first
        [ let a := fresh "a" in
          let Ha := fresh "Ha" in
          apply bind_Ok in H; destruct H as (a & Ha & H); cbv beta in H;
          rewrite (bind_of_Ok _ _ _ Ha); cbv beta; marks H HR
        | eapply marks_bind;
          [ exact H
          | let a := fresh "a" in
            let Ha := fresh "Ha" in
            intros a Ha; marks Ha HR
          | let a := fresh "a" in
            let a' := fresh "a'" in
            let HR' := fresh "HR" in
            let Hk := fresh "Hk" in
            intros a a' HR' Hk; cbv beta in Hk |- *; marks Hk HR' ] ]
  | |- _ => marks_hook H HR
  end.

Section MarksOfDrawing.

Context {n : Z}.

Lemma formatBits_assert (e : QrEcc.t) (m : Z) :
  0 <= m <= 7 -> QrCodeUtil.assert (JS.ushr (QrCode.formatBitsWord e m) 15 =? 0) = Ok tt.
Proof.
  intros Hm.
  assert (Hc : m = 0 \/ m = 1 \/ m = 2 \/ m = 3 \/ m = 4 \/ m = 5 \/ m = 6 \/ m = 7) by lia.
  destruct e; destruct Hc as [->|[->|[->|[->|[->|[->|[->| ->]]]]]]]; vm_compute; reflexivity.
Qed.

Lemma drawFormatBits_marks (m : Z) (q q' r : QrCode.t) :
  0 <= m <= 7 -> sameMarks n q q' -> QrCode.drawFormatBits m q = Ok r ->
  exists r', QrCode.drawFormatBits m q' = Ok r' /\ sameMarks n r r'.
Proof.
  intros Hm HR H. unfold QrCode.drawFormatBits in *. cbv zeta in H |- *.
  rewrite (bind_of_Ok _ _ _ (formatBits_assert _ m Hm)) in H.
  rewrite (bind_of_Ok _ _ _ (formatBits_assert _ m Hm)).
  cbv beta in H |- *.
  marks H HR.
Qed.

Lemma drawVersion_marks (q q' r : QrCode.t) :
  sameMarks n q q' -> QrCode.drawVersion q = Ok r ->
  exists r', QrCode.drawVersion q' = Ok r' /\ sameMarks n r r'.
Proof.
  intros HR H. unfold QrCode.drawVersion in *. cbv zeta in H |- *. marks H HR.
Qed.

Lemma drawFinderPattern_marks (x y : Z) (q q' r : QrCode.t) :
  sameMarks n q q' -> QrCode.drawFinderPattern x y q = Ok r ->
  exists r', QrCode.drawFinderPattern x y q' = Ok r' /\ sameMarks n r r'.
Proof.
  intros HR H. unfold QrCode.drawFinderPattern in *. cbv zeta in H |- *. marks H HR.
Qed.

Lemma drawAlignmentPattern_marks (x y : Z) (q q' r : QrCode.t) :
  sameMarks n q q' -> QrCode.drawAlignmentPattern x y q = Ok r ->
  exists r', QrCode.drawAlignmentPattern x y q' = Ok r' /\ sameMarks n r r'.
Proof.
  intros HR H. unfold QrCode.drawAlignmentPattern in *. marks H HR.
Qed.

Lemma getAlignmentPatternPositions_marks (q q' : QrCode.t) :
  sameMarks n q q' ->
  QrCode.getAlignmentPatternPositions q' = QrCode.getAlignmentPatternPositions q.
Proof.
  intros (Hv & Hs & Hs' & _). unfold QrCode.getAlignmentPatternPositions.
  rewrite Hv, Hs, Hs'. reflexivity.
Qed.

End MarksOfDrawing.

Ltac marks_pre HR ::= rewrite ?(getAlignmentPatternPositions_marks _ _ HR).
Ltac marks_hook H HR ::=
  lazymatch goal with
  | |- exists r', QrCode.drawFinderPattern _ _ _ = _ /\ _ =>
      exact (drawFinderPattern_marks _ _ _ _ _ HR H)
  | |- exists r', QrCode.drawAlignmentPattern _ _ _ = _ /\ _ =>
      exact (drawAlignmentPattern_marks _ _ _ _ _ HR H)
  | |- exists r', QrCode.drawVersion _ = _ /\ _ =>
      exact (drawVersion_marks _ _ _ HR H)
  | |- exists r', QrCode.drawFormatBits _ _ = _ /\ _ =>
      eapply drawFormatBits_marks; [|exact HR|exact H]; lia
  end.

Section MarksOfFunctionPatterns.

Context {n : Z}.

Lemma drawFunctionPatterns_marks (q q' r : QrCode.t) :
  sameMarks n q q' -> QrCode.drawFunctionPatterns q = Ok r ->
  exists r', QrCode.drawFunctionPatterns q' = Ok r' /\ sameMarks n r r'.
Proof.
  intros HR H. unfold QrCode.drawFunctionPatterns in *. cbv zeta in H |- *.
  marks H HR.
Qed.

End MarksOfFunctionPatterns.

(** ** The free modules of a symbol *)

Section FastGrids.

Lemma indexFrom_find {A : Type} (l : list A) (i p : positive) :
  FMapPositive.PositiveMap.find p (indexFrom l i)
  = if (p <? i)%positive then None else l !! (Pos.to_nat p - Pos.to_nat i)%nat.
Proof.
  revert i. induction l as [|a l IH]; intros i; cbn [indexFrom].
  - rewrite FMapPositive.PositiveMap.gempty. destruct (p <? i)%positive; reflexivity.
  - destruct (Pos.eq_dec p i) as [->|Hne].
    + rewrite FMapPositive.PositiveMap.gss, Pos.ltb_irrefl, Nat.sub_diag. reflexivity.
    + rewrite FMapPositive.PositiveMap.gso by exact Hne. rewrite IH.
      destruct (Pos.ltb_spec p i) as [Hlt|Hge].
      * destruct (Pos.ltb_spec p (Pos.succ i)); [reflexivity|lia].
      * destruct (Pos.ltb_spec p (Pos.succ i)); [lia|].
        replace (Pos.to_nat p - Pos.to_nat i)%nat
          with (S (Pos.to_nat p - Pos.to_nat (Pos.succ i))) by lia.
        reflexivity.
Qed.

Lemma indexFrom_lookupZ {A : Type} (l : list A) (i : Z) :
  0 <= i -> FMapPositive.PositiveMap.find (Z.to_pos (i + 1)) (indexFrom l 1%positive) = l !! Z.to_nat i.
Proof.
  intros Hi. rewrite indexFrom_find.
  destruct (Pos.ltb_spec (Z.to_pos (i + 1)) 1); [lia|].
  f_equal. lia.
Qed.

Lemma fastGet_gridGet (g : QrCode.grid) (x y : Z) :
  fastGet (fastGrid g) x y = QrCode.gridGet g x y.
Proof.
  unfold fastGet, fastGrid, QrCode.gridGet, lookupZ. cbn [mbind res_bind].
  destruct (Z.ltb_spec y 0) as [|Hy]; [reflexivity|].
  rewrite indexFrom_lookupZ by exact Hy. rewrite list_lookup_fmap.
  destruct (g !! Z.to_nat y) as [row|]; cbn [fmap option_fmap option_map]; [|reflexivity].
  destruct (Z.ltb_spec x 0) as [|Hx]; [reflexivity|].
  rewrite indexFrom_lookupZ by exact Hx. reflexivity.
Qed.

End FastGrids.

Section Simulation.

Context {A St St' : Type} (R : St -> St' -> Prop).

(** A run of one loop is followed, step by step, by another. *)
Lemma forM_sim (l : list A) (f : A -> St -> res St) (g : A -> St' -> res St') :
  (forall a s s' t', a ∈ l -> R s s' -> g a s' = Ok t' -> exists t, f a s = Ok t /\ R t t') ->
  forall s s' t', R s s' -> forM l g s' = Ok t' -> exists t, forM l f s = Ok t /\ R t t'.
Proof.
  induction l as [|a l IH]; intros Hstep s s' t' HR H; cbn [forM] in *.
  - injection H as <-. exists s. split; [reflexivity|exact HR].
  - apply bind_Ok in H. destruct H as (u' & Hu & H).
    destruct (Hstep a s s' u' ltac:(left) HR Hu) as (u & Hfu & HRu).
    rewrite (bind_of_Ok _ _ _ Hfu).
    apply (IH (fun b w w' x' Hb => Hstep b w w' x' (list_elem_of_further _ _ _ Hb)) u u' t' HRu H).
Qed.

Lemma while_sim (cond : St -> bool) (cond' : St' -> bool)
    (body : St -> res St) (body' : St' -> res St') :
  (forall s s', R s s' -> cond s = cond' s') ->
  (forall s s' t', R s s' -> cond' s' = true -> body' s' = Ok t' ->
                   exists t, body s = Ok t /\ R t t') ->
  forall fuel s s' t', R s s' -> while fuel cond' body' s' = Ok t' ->
                       exists t, while fuel cond body s = Ok t /\ R t t'.
Proof.
  intros Hc Hb. induction fuel as [|fuel IH]; intros s s' t' HR H; cbn [while] in *;
    rewrite (Hc _ _ HR); destruct (cond' s') eqn:Hcs.
  - discriminate.
  - injection H as <-. exists s. split; [reflexivity|exact HR].
  - apply bind_Ok in H. destruct H as (u' & Hu & H).
    destruct (Hb s s' u' HR Hcs Hu) as (u & Hbu & HRu).
    rewrite (bind_of_Ok _ _ _ Hbu). exact (IH u u' t' HRu H).
  - injection H as <-. exists s. split; [reflexivity|exact HR].
Qed.

End Simulation.

Section FreeModules.

Lemma functionPatternsCheck_all : forallb functionPatternsCheck versions = true.
Proof. vm_cast_no_check (eq_refl true). Qed.

Lemma while_ext {St : Type} (cond : St -> bool) (body body' : St -> res St) :
  (forall s, body s = body' s) ->
  forall fuel s, while fuel cond body s = while fuel cond body' s.
Proof.
  intros Hb. induction fuel as [|fuel IH]; intros s; cbn [while].
  - reflexivity.
  - destruct (cond s); [|reflexivity]. rewrite Hb.
    destruct (body' s) as [u|]; cbn [mbind res_bind]; [apply IH|reflexivity].
Qed.

Lemma scanCount_ext (n : Z) (get get' : Z -> Z -> res bool) :
  (forall x y, get x y = get' x y) -> scanCount n get = scanCount n get'.
Proof.
  intros Hg. unfold scanCount. apply while_ext. intros s. cbv zeta.
  f_equal. apply forM_ext. intros vert t _. apply forM_ext. intros j c _.
  rewrite Hg. reflexivity.
Qed.

Lemma gridGet_in_range (n : Z) (g : QrCode.grid) (x y : Z) (b : bool) :
  QrCode.gridGet g x y = Ok b -> square n g -> 0 <= x < n /\ 0 <= y < n.
Proof.
  intros H [Hlen Hrows]. unfold QrCode.gridGet in H.
  apply bind_Ok in H. destruct H as (row & Hrow & H).
  pose proof (lookupZ_Ok_range _ _ _ Hrow) as Hy.
  pose proof (lookupZ_Ok_range _ _ _ H) as Hx.
  apply lookupZ_Ok in Hrow. destruct Hrow as [_ Hrow].
  rewrite Forall_lookup in Hrows. specialize (Hrows _ _ Hrow). lia.
Qed.

(** The function patterns of every version can be drawn, whatever the
    level, and leave as many free modules as the version has raw data
    modules. *)
Lemma drawFunctionPatterns_total (v : Z) (e : QrEcc.t) (msk : Z) :
  1 <= v <= 40 ->
  exists qr raw s,
    QrCode.drawFunctionPatterns (QrCode.initial v e msk) = Ok qr /\
    frameInv v e (v * 4 + 17) qr /\
    QrCode.getNumRawDataModules v = Ok raw /\
    scanCount (v * 4 + 17) (QrCode.gridGet (QrCode.isFunction qr)) = Ok s /\ s.2 = raw.
Proof.
  intros Hv.
  pose proof (forall_versions _ functionPatternsCheck_all v Hv) as H.
  unfold functionPatternsCheck in H.
  destruct (QrCode.drawFunctionPatterns (QrCode.initial v QrEcc.HIGH 0)) as [q0|] eqn:Hq0;
    [|discriminate].
  destruct (QrCode.getNumRawDataModules v) as [raw|] eqn:Hraw; [|discriminate].
  rewrite (scanCount_ext _ _ _ (fastGet_gridGet (QrCode.isFunction q0))) in H.
  destruct (scanCount (v * 4 + 17) (QrCode.gridGet (QrCode.isFunction q0))) as [s|] eqn:Hs;
    [|discriminate].
  apply Z.eqb_eq in H.
  assert (HR : sameMarks (v * 4 + 17) (QrCode.initial v QrEcc.HIGH 0) (QrCode.initial v e msk)).
  { unfold sameMarks, QrCode.initial. cbn.
    repeat split; try apply square_blank; reflexivity. }
  destruct (drawFunctionPatterns_marks _ _ _ HR Hq0) as (qr & Hqr & HR').
  exists qr, raw, s. split; [exact Hqr|]. split.
  { eapply drawFunctionPatterns_frame; [exact Hqr|apply initial_frame]. }
  split; [reflexivity|].
  destruct HR' as (_ & _ & _ & Hf & _). rewrite Hf. split; [exact Hs|exact H].
Qed.

(** The state of the scan of [drawCodewords], and of the count of free
    modules made along the same path: the bit index is the count, capped by
    the number of bits to draw. *)
Lemma drawCodewords_total (v : Z) (e : QrEcc.t) (n : Z) (data : list Z) (qr : QrCode.t)
    (raw : Z) (s : Z * Z) :
  frameInv v e n qr ->
  QrCode.getNumRawDataModules v = Ok raw -> 0 <= raw < 2147483648 ->
  Z.of_nat (length data) = raw / 8 ->
  scanCount n (QrCode.gridGet (QrCode.isFunction qr)) = Ok s -> s.2 = raw ->
  exists qr', QrCode.drawCodewords data qr = Ok qr' /\ frameInv v e n qr'.
Proof.
  intros HF Hraw Hr Hlen Hs Hc.
  assert (Hr8 : 0 <= raw / 8 * 8 <= raw).
  { pose proof (Z.mul_div_le raw 8). pose proof (Z.div_pos raw 8). lia. }
  assert (Htot : exists qr', QrCode.drawCodewords data qr = Ok qr').
  2:{ destruct Htot as (qr' & Hqr'). exists qr'. split; [exact Hqr'|].
      eapply drawCodewords_frame; [exact Hqr'|exact HF]. }
  destruct HF as (Hv & _ & Hn & Hm & Hf).
  unfold QrCode.drawCodewords. rewrite Hv, Hraw. cbn [mbind res_bind].
  unfold JS.floorDiv. rewrite Hlen, Z.eqb_refl. cbn [negb].
  rewrite Hn. unfold scanCount in Hs.
  set (R := fun (t : Z * (QrCode.grid * Z)) (t' : Z * Z) =>
              t.1 = t'.1 /\ square n t.2.1 /\ 0 <= t'.2 /\ t.2.2 = Z.min t'.2 (raw / 8 * 8)).
  eapply (while_sim R) in Hs.
  - destruct Hs as (rs & Hrs & _ & _ & _ & Hi).
    rewrite Hrs. cbn [mbind res_bind]. rewrite Hi, Hc.
    replace (Z.min raw (raw / 8 * 8) =? raw / 8 * 8) with true.
    + cbn. eexists. reflexivity.
    + symmetry. apply Z.eqb_eq. pose proof (Z.mul_div_le raw 8). lia.
  - intros t t' (H1 & _). rewrite H1. reflexivity.
  - intros t t' u' (H1 & Hsq & Hc0 & Hi) _ Hb. cbv zeta in Hb |- *.
    apply bind_Ok in Hb. destruct Hb as (c & Hb & Hu). injection Hu as <-.
    rewrite H1.
    set (R2 := fun (mi : QrCode.grid * Z) (c : Z) =>
                 square n mi.1 /\ 0 <= c /\ mi.2 = Z.min c (raw / 8 * 8)).
    assert (Hin : exists mi, forM (seqZ 0 n)
      (fun vert : Z =>
       forM (seqZ 0 2)
         (fun (j : Z) '(m, i) =>
          f ← QrCode.gridGet (QrCode.isFunction qr)
                ((if t'.1 =? 6 then 5 else t'.1) - j)
                (if JS.and ((if t'.1 =? 6 then 5 else t'.1) + 1) 2 =? 0
                 then n - 1 - vert else vert);
          if negb f && (i <? raw / 8 * 8)
          then
           d ← lookupZ data (JS.ushr i 3);
           m0 ← QrCode.gridSet m ((if t'.1 =? 6 then 5 else t'.1) - j)
                  (if JS.and ((if t'.1 =? 6 then 5 else t'.1) + 1) 2 =? 0
                   then n - 1 - vert else vert)
                  (QrCodeUtil.getBit d (7 - JS.and i 7));
           Ok (m0, i + 1)
          else Ok (m, i))) t.2 = Ok mi /\ R2 mi c).
    { eapply (forM_sim R2); [|split; [exact Hsq|split; [exact Hc0|exact Hi]]|exact Hb].
      intros vert w w' x' _ HRw Hw. cbv beta in Hw |- *.
      eapply (forM_sim R2); [|exact HRw|exact Hw].
      clear Hw HRw Hb. intros j [m i] k k' _ (Hsq2 & Hc2 & Hi2) Hstep. cbn [fst snd] in *.
      apply bind_Ok in Hstep. destruct Hstep as (f & Hf' & Hstep). injection Hstep as <-.
      rewrite (bind_of_Ok _ _ _ Hf').
      destruct (gridGet_in_range n _ _ _ _ Hf' Hf) as [Hx Hy].
      destruct f; cbn [negb andb].
      - eexists. split; [reflexivity|]. split; [exact Hsq2|]. split; [exact Hc2|exact Hi2].
      - destruct (Z.ltb_spec i (raw / 8 * 8)) as [Hlt|Hge].
        + assert (Hic : i = k) by lia. clear Hi2. subst i.
          rewrite ushr_3 by lia.
          destruct (lookupZ_in_range data (k / 8)) as (d & Hd).
          { rewrite Hlen. split; [apply Z.div_pos; lia|].
            apply Z.div_lt_upper_bound; lia. }
          rewrite Hd. cbn [mbind res_bind].
          destruct (gridSet_square n m _ _ (QrCodeUtil.getBit d (7 - JS.and k 7)) Hsq2 Hx Hy)
            as (m' & Hm' & Hsq' & _).
          rewrite Hm'. cbn [mbind res_bind].
          eexists. split; [reflexivity|]. unfold R2. cbn [fst snd]. split; [exact Hsq'|]. lia.
        + eexists. split; [reflexivity|]. unfold R2. cbn [fst snd]. split; [exact Hsq2|]. lia. }
    destruct Hin as (mi & Hmi & HR2). rewrite Hmi. cbn [mbind res_bind].
    eexists. split; [reflexivity|]. split; [reflexivity|exact HR2].
  - split; [reflexivity|]. cbn [fst snd]. split; [exact Hm|]. split; [lia|].
    pose proof (Z.mul_div_le raw 8). pose proof (Z.div_pos raw 8). lia.
Qed.

End FreeModules.

(** ** Steps that cannot fail *)

Section Totality.

Lemma bind_total {A B : Type} (P : A -> Prop) (Q : B -> Prop) (m : res A) (k : A -> res B) :
  (exists a, m = Ok a /\ P a) -> (forall a, P a -> exists b, k a = Ok b /\ Q b) ->
  exists b, mbind k m = Ok b /\ Q b.
Proof.
  intros (a & -> & Ha) Hk. cbn [mbind res_bind]. exact (Hk a Ha).
Qed.

Lemma frame_size {v e n} (qr : QrCode.t) : frameInv v e n qr -> QrCode.size qr = n.
Proof. intros (_ & _ & H & _). exact H. Qed.

Lemma frame_wellFormed {v e n} (qr : QrCode.t) : 0 <= n -> frameInv v e n qr -> wellFormed qr.
Proof.
  intros Hn (_ & _ & Hs & Hm & Hf). unfold wellFormed. rewrite Hs. auto.
Qed.

Lemma setFunctionModule_total {v e n} (x y : Z) (b : bool) (qr : QrCode.t) :
  frameInv v e n qr -> 0 <= x < n -> 0 <= y < n ->
  exists qr', QrCode.setFunctionModule x y b qr = Ok qr' /\ frameInv v e n qr'.
Proof.
  intros HF Hx Hy.
  assert (Htot : exists qr', QrCode.setFunctionModule x y b qr = Ok qr').
  { destruct HF as (_ & _ & _ & Hm & Hf). unfold QrCode.setFunctionModule.
    destruct (gridSet_square n _ x y b Hm Hx Hy) as (m' & -> & _).
    destruct (gridSet_square n _ x y true Hf Hx Hy) as (f' & -> & _).
    cbn [mbind res_bind]. eexists. reflexivity. }
  destruct Htot as (qr' & Hqr'). exists qr'. split; [exact Hqr'|].
  exact (setFunctionModule_frame _ _ _ _ _ Hqr' HF).
Qed.

End Totality.

(** [total v e n] runs a sequence of module writes on a symbol that
    satisfies [frameInv v e n], leaving the bounds of the coordinates to
    linear arithmetic. *)
Ltac total v e n :=
  lazymatch goal with
  | |- exists q', mbind _ _ = Ok q' /\ _ =>
      eapply (bind_total (frameInv v e n));
      [ total v e n
      | let q := fresh "q" in
        let HF := fresh "HF" in
        intros q HF; total v e n ]
  | |- exists q', forM _ _ _ = Ok q' /\ _ =>
      apply (forM_inv (frameInv v e n));
      [ let a := fresh "a" in
        let q := fresh "q" in
        let Hin := fresh "Hin" in
        let HF := fresh "HF" in
        intros a q Hin HF; apply elem_of_seqZ in Hin; cbv beta; total v e n
      | assumption ]
  | |- exists q', QrCode.setFunctionModule _ _ _ ?q = Ok q' /\ _ =>
      match goal with
      | HF : frameInv _ _ _ q |- _ =>
          rewrite ?(frame_size _ HF); apply setFunctionModule_total; [exact HF|lia|lia]
      end
  end.

Section TotalityOfDrawing.

Lemma drawFormatBits_total {v e n} (m : Z) (qr : QrCode.t) :
  0 <= m <= 7 -> 21 <= n -> frameInv v e n qr ->
  exists qr', QrCode.drawFormatBits m qr = Ok qr' /\ frameInv v e n qr'.
Proof.
  intros Hm Hn HF. unfold QrCode.drawFormatBits. cbv zeta.
  rewrite formatBits_assert by exact Hm. cbn [mbind res_bind].
  total v e n.
Qed.

End TotalityOfDrawing.

Section PenaltyOfALine.

Lemma finderPenaltyCountPatterns_total (qr : QrCode.t) (h0 h1 h2 h3 h4 h5 h6 : Z) :
  h1 <= QrCode.size qr * 3 ->
  exists c, QrCode.finderPenaltyCountPatterns qr (h0, h1, h2, h3, h4, h5, h6) = Ok c /\
            0 <= c <= 2 /\ (c = 2 -> 0 < h1 /\ 4 * h1 <= h0).
Proof.
  intros H. unfold QrCode.finderPenaltyCountPatterns.
  replace (h1 <=? QrCode.size qr * 3) with true by (symmetry; apply Z.leb_le; lia).
  cbn [QrCodeUtil.assert mbind res_bind].
  eexists. split; [reflexivity|].
  destruct (Z.gtb_spec h1 0), (Z.geb_spec h0 (h1 * 4));
    destruct (h2 =? h1), (h3 =? h1 * 3), (h4 =? h1), (h5 =? h1), (h6 >=? h1),
             (h6 >=? h1 * 4), (h0 >=? h1);
    cbn [andb]; lia.
Qed.

Lemma penaltyLine_total (qr : QrCode.t) (cell : Z -> res bool) (r0 : Z) :
  0 <= QrCode.size qr ->
  (forall i, 0 <= i < QrCode.size qr -> exists c, cell i = Ok c) ->
  exists r, QrCode.penaltyLine qr cell r0 = Ok r /\
            r0 <= r <= r0 + 20 * QrCode.size qr + 100.
Proof.
  intros Hn Hcell. unfold QrCode.penaltyLine.
  set (n := QrCode.size qr) in *.
  match goal with
  | |- context [forM (seqZ 0 n) ?f0 ?s0] =>
      destruct (forM_seqZ_inv (lineInv n r0) f0 0 n Hn) with (s := s0) as (st & Hst & HI)
  end.
  - intros i [[[result runColor] runX] [[[[[[h0 h1] h2] h3] h4] h5] h6]] Hi HI.
    unfold lineInv in HI. destruct HI as (Hx & Hh & Hr & Hp).
    destruct (Hcell i ltac:(lia)) as (c & Hc). rewrite Hc. cbn [mbind res_bind].
    destruct (eqb c runColor) eqn:Hcc.
    + eexists. split; [reflexivity|]. unfold lineInv, runPotential, QrCode.PENALTY_N1 in *.
      rewrite Z.gtb_ltb. destruct runColor; zcases; lia.
    + unfold QrCode.finderPenaltyAddHistory. cbv beta iota zeta.
      destruct runColor; cbn [negb].
      * cbn [mbind res_bind]. eexists. split; [reflexivity|].
        destruct c; [discriminate|].
        unfold lineInv, runPotential in *. zcases; lia.
      * destruct (finderPenaltyCountPatterns_total qr
                    (if h0 =? 0 then runX + QrCode.size qr else runX) h0 h1 h2 h3 h4 h5)
          as (cnt & Hcnt & Hb & H2); [fold n; lia|].
        rewrite Hcnt. cbn [mbind res_bind]. eexists. split; [reflexivity|].
        destruct c; [|discriminate].
        unfold lineInv, runPotential, QrCode.PENALTY_N3 in *. fold n in H2 |- *.
        assert (Hcases : cnt <= 1 \/ cnt = 2) by lia.
        destruct Hcases as [Hc1|Hc2].
        -- zcases; lia.
        -- specialize (H2 Hc2). revert H2. zcases; lia.
  - unfold lineInv, runPotential. cbn. lia.
  - rewrite Hst. cbn [mbind res_bind].
    destruct st as [[[result runColor] runX] [[[[[[h0 h1] h2] h3] h4] h5] h6]].
    unfold lineInv in HI. destruct HI as (Hx & Hh & Hr & Hp).
    assert (Hpot : 0 <= runPotential runColor runX).
    { unfold runPotential. destruct runColor; lia. }
    assert (Hend : exists cnt, QrCode.finderPenaltyTerminateAndCount qr runColor runX
                                 (h0, h1, h2, h3, h4, h5, h6) = Ok cnt /\ 0 <= cnt <= 2).
    { unfold QrCode.finderPenaltyTerminateAndCount, QrCode.finderPenaltyAddHistory.
      destruct runColor; cbv beta iota zeta.
      - destruct (finderPenaltyCountPatterns_total qr
                    (if (if h0 =? 0 then runX + QrCode.size qr else runX) =? 0
                     then 0 + QrCode.size qr + QrCode.size qr else 0 + QrCode.size qr)
                    (if h0 =? 0 then runX + QrCode.size qr else runX) h0 h1 h2 h3 h4)
          as (cnt & Hcnt & Hb & _); [fold n; zcases; lia|].
        exists cnt. split; [exact Hcnt|exact Hb].
      - destruct (finderPenaltyCountPatterns_total qr
                    (if h0 =? 0 then runX + QrCode.size qr + QrCode.size qr
                     else runX + QrCode.size qr) h0 h1 h2 h3 h4 h5)
          as (cnt & Hcnt & Hb & _); [fold n; lia|].
        exists cnt. split; [exact Hcnt|exact Hb]. }
    destruct Hend as (cnt & Hcnt & Hb). rewrite Hcnt. cbn [mbind res_bind].
    eexists. split; [reflexivity|]. unfold QrCode.PENALTY_N3. lia.
Qed.

End PenaltyOfALine.

Section PenaltyScore.

Lemma forM_seqZ_total {St : Type} (I : Z -> St -> Prop) (P : St -> Prop)
    (f : Z -> St -> res St) (a n : Z) (s : St) :
  0 <= n ->
  (forall i t, a <= i < a + n -> I i t -> exists t', f i t = Ok t' /\ I (i + 1) t') ->
  I a s -> (forall t, I (a + n) t -> P t) ->
  exists t, forM (seqZ a n) f s = Ok t /\ P t.
Proof.
  intros Hn Hstep Hs HP.
  destruct (forM_seqZ_inv I f a n Hn Hstep s Hs) as (t & Ht & HI).
  exists t. split; [exact Ht|exact (HP t HI)].
Qed.

Lemma darkRow_bounds (row : list bool) (d : Z) :
  d <= fold_left (fun sum (color : bool) => sum + (if color then 1 else 0)) row d
    <= d + Z.of_nat (length row).
Proof.
  revert d. induction row as [|c row IH]; intros d; cbn [fold_left length].
  - lia.
  - specialize (IH (d + (if c then 1 else 0))). destruct c; lia.
Qed.

Lemma darkGrid_bounds (n : Z) (g : QrCode.grid) (d : Z) :
  0 <= n -> Forall (fun row => length row = Z.to_nat n) g ->
  d <= fold_left
         (fun dark row =>
            fold_left (fun sum (color : bool) => sum + (if color then 1 else 0)) row dark)
         g d
    <= d + Z.of_nat (length g) * n.
Proof.
  intros Hn Hg. revert d. induction Hg as [|row g Hrow Hg IH]; intros d; cbn [fold_left length].
  - lia.
  - pose proof (darkRow_bounds row d) as Hr.
    specialize (IH (fold_left (fun sum (color : bool) => sum + (if color then 1 else 0)) row d)).
    rewrite Hrow in Hr. lia.
Qed.

Lemma getPenaltyScore_total (qr : QrCode.t) (j : Z) :
  wellFormed qr -> QrCode.size qr = 2 * j + 1 -> 1 <= QrCode.size qr <= 177 ->
  exists p, QrCode.getPenaltyScore qr = Ok p /\ 0 <= p <= 2568888.
Proof.
  intros (_ & Hm & _) Hodd Hn. unfold QrCode.getPenaltyScore.
  set (n := QrCode.size qr) in *. set (B := 20 * n + 100).
  assert (Hget : forall x y, 0 <= x < n -> 0 <= y < n ->
                             exists c, QrCode.gridGet (QrCode.modules qr) x y = Ok c).
  { intros x y Hx Hy. eexists. exact (gridGet_square n _ x y Hm Hx Hy). }
  eapply (bind_total (fun r => 0 <= r <= n * B)).
  { apply (forM_seqZ_total (fun y r => 0 <= r <= y * B)); [lia| |lia|intros t; lia].
    intros y r Hy Hr.
    destruct (penaltyLine_total qr (fun x => QrCode.gridGet (QrCode.modules qr) x y) r)
      as (r' & Hr' & Hb); [fold n; lia|fold n; intros x Hx; apply Hget; lia|].
    exists r'. split; [exact Hr'|]. fold n in Hb. unfold B in *. lia. }
  intros r1 Hr1.
  eapply (bind_total (fun r => 0 <= r <= n * B + n * B)).
  { apply (forM_seqZ_total (fun x r => 0 <= r <= n * B + x * B)); [lia| |lia|intros t; lia].
    intros x r Hx Hr.
    destruct (penaltyLine_total qr (fun y => QrCode.gridGet (QrCode.modules qr) x y) r)
      as (r' & Hr' & Hb); [fold n; lia|fold n; intros y Hy; apply Hget; lia|].
    exists r'. split; [exact Hr'|]. fold n in Hb. unfold B in *. lia. }
  intros r2 Hr2.
  eapply (bind_total (fun r => 0 <= r <= n * B + n * B + (n - 1) * (3 * (n - 1)))).
  { apply (forM_seqZ_total (fun y r => 0 <= r <= n * B + n * B + y * (3 * (n - 1))));
      [lia| |lia|intros t; lia].
    intros y r Hy Hr.
    apply (forM_seqZ_total (fun x r' => r <= r' <= r + 3 * x)); [lia| |lia|intros t; lia].
    intros x r' Hx Hr'.
    destruct (Hget x y) as (c0 & ->); [lia|lia|].
    destruct (Hget (x + 1) y) as (c1 & ->); [lia|lia|].
    destruct (Hget x (y + 1)) as (c2 & ->); [lia|lia|].
    destruct (Hget (x + 1) (y + 1)) as (c3 & ->); [lia|lia|].
    cbn [mbind res_bind]. unfold QrCode.PENALTY_N2.
    destruct (eqb c0 c1), (eqb c0 c2), (eqb c0 c3); cbn [mbind res_bind];
      eexists; (split; [reflexivity|lia]). }
  intros r3 Hr3. cbv zeta.
  pose proof (darkGrid_bounds n (QrCode.modules qr) 0 ltac:(lia) (proj2 Hm)) as Hdark.
  rewrite (proj1 Hm), Z2Nat.id in Hdark by lia.
  set (dark := fold_left _ (QrCode.modules qr) 0) in *.
  assert (Hk : 1 <= JS.ceilDiv (Z.abs (dark * 20 - n * n * 10)) (n * n) <= 10).
  { unfold JS.ceilDiv.
    assert (Hpos : 0 < n * n) by nia.
    assert (Hne : dark * 20 - n * n * 10 <> 0) by (rewrite Hodd; nia).
    assert (Hq1 : - Z.abs (dark * 20 - n * n * 10) / (n * n) < 0).
    { apply Z.div_lt_upper_bound; lia. }
    assert (Hq2 : -10 <= - Z.abs (dark * 20 - n * n * 10) / (n * n)).
    { apply Z.div_le_lower_bound; lia. }
    lia. }
  replace ((0 <=? JS.ceilDiv (Z.abs (dark * 20 - n * n * 10)) (n * n) - 1)
           && (JS.ceilDiv (Z.abs (dark * 20 - n * n * 10)) (n * n) - 1 <=? 9)) with true
    by (symmetry; apply andb_true_iff; split; apply Z.leb_le; lia).
  cbn [QrCodeUtil.assert mbind res_bind]. unfold QrCode.PENALTY_N4.
  assert (Hfinal : 0 <= r3 + (JS.ceilDiv (Z.abs (dark * 20 - n * n * 10)) (n * n) - 1) * 10
                   <= 2568888).
  { unfold B in *. nia. }
  replace ((0 <=? r3 + (JS.ceilDiv (Z.abs (dark * 20 - n * n * 10)) (n * n) - 1) * 10)
           && (r3 + (JS.ceilDiv (Z.abs (dark * 20 - n * n * 10)) (n * n) - 1) * 10 <=? 2568888))
    with true by (symmetry; apply andb_true_iff; split; apply Z.leb_le; lia).
  cbn [QrCodeUtil.assert mbind res_bind]. eexists. split; [reflexivity|exact Hfinal].
Qed.

End PenaltyScore.

(** ** The constructor completes *)

Section Construction.

Lemma applyMask_total {v e n} (m : Z) (qr : QrCode.t) :
  0 <= m <= 7 -> 0 <= n -> frameInv v e n qr ->
  exists qr', QrCode.applyMask m qr = Ok qr' /\ frameInv v e n qr'.
Proof.
  intros Hm Hn HF.
  destruct (applyMask_masks m qr Hm (frame_wellFormed qr Hn HF)) as (qr' & Hqr' & _).
  exists qr'. split; [exact Hqr'|]. exact (applyMask_frame _ _ _ Hqr' HF).
Qed.

(** One round of the search for the best mask. *)
Lemma tryMask_total {v e n} (j : Z) (i : Z) (qr : QrCode.t) :
  0 <= i <= 7 -> n = 2 * j + 1 -> 21 <= n <= 177 -> frameInv v e n qr ->
  exists qr1 qr2 p qr3,
    QrCode.applyMask i qr = Ok qr1 /\ QrCode.drawFormatBits i qr1 = Ok qr2 /\
    QrCode.getPenaltyScore qr2 = Ok p /\ 0 <= p <= 2568888 /\
    QrCode.applyMask i qr2 = Ok qr3 /\ frameInv v e n qr3.
Proof.
  intros Hi Hodd Hn HF.
  destruct (applyMask_total (n:=n) i qr Hi ltac:(lia) HF) as (qr1 & H1 & HF1).
  destruct (drawFormatBits_total (n:=n) i qr1 Hi ltac:(lia) HF1) as (qr2 & H2 & HF2).
  destruct (getPenaltyScore_total qr2 j) as (p & Hp & Hb).
  { apply (frame_wellFormed (n:=n) qr2 ltac:(lia) HF2). }
  { rewrite (frame_size _ HF2). exact Hodd. }
  { rewrite (frame_size _ HF2). lia. }
  destruct (applyMask_total (n:=n) i qr2 Hi ltac:(lia) HF2) as (qr3 & H3 & HF3).
  exists qr1, qr2, p, qr3.
  split; [exact H1|]. split; [exact H2|]. split; [exact Hp|]. split; [exact Hb|].
  split; [exact H3|exact HF3].
Qed.

(** The search for the best mask: every round completes, and the first
    one already selects a mask, since no penalty reaches the initial
    minimum. *)
Lemma maskSearch_total {v e n} (j : Z) (qr : QrCode.t) :
  n = 2 * j + 1 -> 21 <= n <= 177 -> frameInv v e n qr ->
  exists r : Z * Z * QrCode.t,
    forM (seqZ 0 8)
      (fun i '(msk0, minPenalty, qr) =>
         qr0 ← QrCode.applyMask i qr;
         qr3 ← QrCode.drawFormatBits i qr0;
         penalty ← QrCode.getPenaltyScore qr3;
         let '(msk1, minPenalty0) :=
           if penalty <? minPenalty then (i, penalty) else (msk0, minPenalty) in
         qr4 ← QrCode.applyMask i qr3; Ok (msk1, minPenalty0, qr4))
      (-1, 1000000000, qr) = Ok r /\
    0 <= r.1.1 <= 7 /\ frameInv v e n r.2.
Proof.
  intros Hodd Hsz HF.
  apply (forM_seqZ_total
           (fun i (r : Z * Z * QrCode.t) =>
              frameInv v e n r.2 /\
              ((i = 0 /\ r.1.2 = 1000000000) \/ (0 < i /\ 0 <= r.1.1 <= 7)))).
  - lia.
  - intros i [[m0 minP] q] Hi (HFq & Hcase). cbn [fst snd] in *.
    destruct (tryMask_total (n:=n) j i q ltac:(lia) Hodd Hsz HFq)
      as (q1 & q2 & p & q3 & Ha & Hb & Hp & Hpb & Hc3 & HF3).
    step Ha. step Hb. step Hp.
    destruct (Z.ltb_spec p minP) as [Hlt'|Hge]; step Hc3; cbv beta iota;
      eexists; (split; [reflexivity|]); cbn [fst snd]; (split; [exact HF3|]); lia.
  - cbn [fst snd]. split; [exact HF|]. left. lia.
  - intros [[m0 minP] q] (HFq & Hcase). cbn [fst snd] in *. split; [lia|exact HFq].
Qed.

Lemma new_succeeds (v : Z) (e : QrEcc.t) (d : list Z) (msk : Z) (n : Z) :
  1 <= v <= 40 -> -1 <= msk <= 7 ->
  QrCode.getNumDataCodewords v e = Ok n -> Z.of_nat (length d) = n -> Forall isByte d ->
  exists qr, QrCode.new v e d msk = Ok qr.
Proof.
  intros Hv Hmsk Hn Hlen Hd.
  unfold QrCode.new, QrCode.MIN_VERSION, QrCode.MAX_VERSION. cmp. cbv zeta.
  destruct (drawFunctionPatterns_total v e msk Hv) as (qr1 & raw & s & H1 & HF1 & Hraw & Hs & Hc).
  rewrite (bind_of_Ok _ _ _ H1).
  destruct (capacity_facts v e Hv)
    as (raw' & ecc & nb & Hraw' & Hecc & Hnb & Hn' & _ & Hr & _ & Hnb1 & He & Hlt).
  rewrite Hraw in Hraw'. injection Hraw' as <-.
  rewrite Hn in Hn'. injection Hn' as ->.
  pose proof HF1 as (Hv1 & He1 & _).
  destruct (addEccAndInterleave_total qr1 d raw ecc nb) as (out & Hout & Hlo & Hbo);
    rewrite ?Hv1, ?He1; try assumption; try lia.
  rewrite (bind_of_Ok _ _ _ Hout).
  destruct (drawCodewords_total v e _ out qr1 raw s HF1 Hraw ltac:(lia) Hlo Hs Hc)
    as (qr2 & H2 & HF2).
  rewrite (bind_of_Ok _ _ _ H2).
  assert (Hodd : v * 4 + 17 = 2 * (2 * v + 8) + 1) by lia.
  assert (Hsz : 21 <= v * 4 + 17 <= 177) by lia.
  destruct (maskSearch_total (2 * v + 8) qr2 Hodd Hsz HF2) as ([[m0 minP] q] & Hr0 & Hm0 & HFq).
  cbn [fst snd] in Hm0, HFq.
  assert (Hmq : exists m qr3,
    (if msk =? -1
     then r ← forM (seqZ 0 8)
                (fun i '(msk0, minPenalty, qr) =>
                   qr0 ← QrCode.applyMask i qr;
                   qr3 ← QrCode.drawFormatBits i qr0;
                   penalty ← QrCode.getPenaltyScore qr3;
                   let '(msk1, minPenalty0) :=
                     if penalty <? minPenalty then (i, penalty) else (msk0, minPenalty) in
                   qr4 ← QrCode.applyMask i qr3; Ok (msk1, minPenalty0, qr4))
                (msk, 1000000000, qr2);
          Ok (r.1.1, r.2)
     else Ok (msk, qr2)) = Ok (m, qr3) /\ 0 <= m <= 7 /\ frameInv v e (v * 4 + 17) qr3).
  { destruct (Z.eqb_spec msk (-1)) as [->|Hne].
    - rewrite (bind_of_Ok _ _ _ Hr0). exists m0, q. cbn [fst snd]. auto.
    - exists msk, qr2. split; [reflexivity|]. split; [lia|exact HF2]. }
  destruct Hmq as (m & qr3 & Hmq & Hm & HF3). rewrite (bind_of_Ok _ _ _ Hmq).
  replace ((0 <=? m) && (m <=? 7)) with true
    by (symmetry; apply andb_true_iff; split; apply Z.leb_le; lia).
  destruct (applyMask_total (n:=v * 4 + 17) m qr3 Hm ltac:(lia) HF3) as (qr4 & H4 & HF4).
  destruct (drawFormatBits_total (n:=v * 4 + 17) m qr4 Hm ltac:(lia) HF4) as (qr5 & H5 & HF5).
  cbn [QrCodeUtil.assert]. rewrite (bind_of_Ok _ _ _ eq_refl).
  rewrite (bind_of_Ok _ _ _ H4). rewrite (bind_of_Ok _ _ _ H5).
  eexists. reflexivity.
Qed.

End Construction.

(** ** Reading the modules of a constructed symbol *)

Section ConstructedSymbols.

(** The symbol of version 1, level LOW and mask 0 over nineteen zero
    codewords exists; outside of its 21 x 21 grid every module reads light. *)
Lemma getModule_total_witness :
  exists qr, QrCode.new 1 QrEcc.LOW (replicate 19 0) 0 = Ok qr /\
             QrCode.getModule qr (-1) 0 = Ok false /\
             QrCode.getModule qr 0 (QrCode.size qr) = Ok false.
Proof.
  destruct (new_succeeds 1 QrEcc.LOW (replicate 19 0) 0 19) as (qr & Hqr).
  - lia.
  - lia.
  - reflexivity.
  - reflexivity.
  - apply Forall_replicate. unfold isByte. lia.
  - exists qr. split; [exact Hqr|]. split.
    + apply (getModule_total 1 QrEcc.LOW (replicate 19 0) 0 qr (-1) 0 Hqr). lia.
    + apply (getModule_total 1 QrEcc.LOW (replicate 19 0) 0 qr 0 (QrCode.size qr) Hqr). lia.
Defined.

End ConstructedSymbols.
